(** * Zorya: the calendar-approval subsystem

    A shallow embedding of [src/calendar-approval.ts] (credential manager
    and calendar write client) and of [src/channels/telegram.ts] (approval
    channel adapter, and the messages of the channel in and out), together
    with the properties the specification states about them.

    The TypeScript code runs on untyped JavaScript values that come out of
    [JSON.parse], so the embedding works on a small model of those values
    ([JS.JSValue]) and follows the language's rules for truthiness,
    property access and string conversion where the code relies on them. *)

From stdpp Require Import base option list strings pretty gmap fin_maps.
From Stdlib Require Import ZArith Lia.

Set Warnings "-register-all".

Local Open Scope string_scope.
Local Open Scope Z_scope.

(** ** JavaScript values *)

Module JS.

(** The values [JSON.parse] can build, plus [undefined] (the value of a
    missing property).  An object is the list of its own properties in
    insertion order; [JSON.parse] never builds an object with a repeated
    key.  Numbers are the integral ones: the code only ever reads a status
    code and a token lifetime in seconds. *)
Inductive JSValue : Type :=
| JUndefined
| JNull
| JBool (b : bool)
| JNum (n : Z)
| JStr (s : string)
| JArr (items : list JSValue)
| JObj (props : list (string * JSValue)).

Definition Props : Type := list (string * JSValue).

(** [o[k]] on the property list of an object: [None] when [k] is not an
    own property. *)
Fixpoint obj_lookup (k : string) (o : Props) : option JSValue :=
  match o with
  | [] => None
  | (k', v) :: rest => if String.eqb k k' then Some v else obj_lookup k rest
  end.

(** [o[k] = v]: an existing property keeps its position, a new one is
    appended. *)
Fixpoint obj_set (k : string) (v : JSValue) (o : Props) : Props :=
  match o with
  | [] => [(k, v)]
  | (k', v') :: rest =>
      if String.eqb k k' then (k, v) :: rest else (k', v') :: obj_set k v rest
  end.

(** JavaScript truthiness ([ToBoolean]). *)
Definition truthy (v : JSValue) : bool :=
  match v with
  | JUndefined | JNull => false
  | JBool b => b
  | JNum n => negb (n =? 0)
  | JStr s => negb (String.eqb s "")
  | JArr _ | JObj _ => true
  end.

(** [a || b] *)
Definition js_or (a b : JSValue) : JSValue := if truthy a then a else b.

(** String conversion as a template literal performs it ([ToString]).
    [Array.prototype.join] prints [null] and [undefined] items as the
    empty string. *)
Fixpoint ToString (v : JSValue) : string :=
  match v with
  | JUndefined => "undefined"
  | JNull => "null"
  | JBool true => "true"
  | JBool false => "false"
  | JNum n => pretty n
  | JStr s => s
  | JArr items =>
      (fix join (first : bool) (l : list JSValue) : string :=
         match l with
         | [] => ""
         | x :: rest =>
             (if first then "" else ",")
             ++ match x with
                | JUndefined | JNull => ""
                | _ => ToString x
                end
             ++ join false rest
         end) true items
  | JObj _ => "[object Object]"
  end.

(** The own enumerable properties an object spread [{...v}] copies: the
    properties of an object, the indexed items of an array, the indexed
    characters of a string, and nothing for the other primitives. *)
Definition own_props (v : JSValue) : Props :=
  match v with
  | JObj props => props
  | JArr items => imap (fun i x => (pretty i, x)) items
  | JStr s => imap (fun i c => (pretty i, JStr (String c EmptyString)))
                   (String.list_ascii_of_string s)
  | _ => []
  end.

(** [{...a, ...b}]: the own properties of [a] in their order (the
    property list of an object has no repeated key, so copying it gives
    the same list), then each own property of [b] assigned in turn. *)
Definition spread (a b : JSValue) : JSValue :=
  JObj (foldl (λ o kv, obj_set kv.1 kv.2 o) (own_props a) (own_props b)).

(** [s.startsWith(p)] *)
Fixpoint startsWith (p s : string) : bool :=
  match p, s with
  | EmptyString, _ => true
  | String a p', String b s' => Ascii.eqb a b && startsWith p' s'
  | String _ _, EmptyString => false
  end.

Definition colon : Ascii.ascii := Ascii.ascii_of_nat 58.

(** Whether the character [c] occurs in [s]. *)
Fixpoint contains (c : Ascii.ascii) (s : string) : bool :=
  match s with
  | EmptyString => false
  | String c' rest => Ascii.eqb c c' || contains c rest
  end.

(** [s.split(sep)] for a one-character separator. *)
Fixpoint split_on (sep : Ascii.ascii) (s : string) : list string :=
  match s with
  | EmptyString => [""]
  | String c rest =>
      if Ascii.eqb c sep then "" :: split_on sep rest
      else match split_on sep rest with
           | [] => [String c ""]
           | piece :: pieces => String c piece :: pieces
           end
  end.

End JS.

(** ** The host runtime

    What the code calls but does not define: the JSON codec, the [Date]
    conversions, string-to-number conversion and the encoders of Node's
    standard library.  They are parameters of the development; nothing is
    assumed about them. *)
Class Runtime : Type := {
  (** [JSON.parse]; [None] stands for the [SyntaxError] it throws. *)
  JSON_parse : string → option JS.JSValue;
  (** [JSON.stringify(v, null, 2)] and [JSON.stringify(v)] of an object. *)
  JSON_stringify : JS.JSValue → string;
  (** [Date.parse]: milliseconds since the epoch, [None] for [NaN]. *)
  Date_parse : string → option Z;
  (** [Date.prototype.toISOString] of a valid time value. *)
  Date_toISOString : Z → string;
  (** [ToNumber] of a string, [None] for [NaN]. *)
  StringToNumber : string → option Z;
  (** [new URLSearchParams(fields).toString()] *)
  URLSearchParams_toString : list (string * string) → string;
  (** [Buffer.byteLength] *)
  Buffer_byteLength : string → Z;
  (** [date.toLocaleDateString('en-GB', { weekday: 'short', day:
      'numeric', month: 'short' })] and [date.toLocaleTimeString('en-GB',
      { hour: '2-digit', minute: '2-digit' })] of a time value ([None]:
      an invalid date). *)
  toLocaleDateString : option Z → string;
  toLocaleTimeString : option Z → string;
}.

(** Constants the module reads from its environment: [OAUTH_PATH] is
    computed from [process.env.HOME], [TIMEZONE] is imported from
    [src/config.ts]. *)
Class Config : Type := {
  OAUTH_PATH : string;
  TIMEZONE : string;
}.

(** Modelled from the spec: the [EventProposal] interface of
    [src/types.ts] is not among the sources; its fields are those of the
    [event_proposals] table of the design document and of section 3 of the
    specification, with the four lifecycle statuses as a closed type. *)
Inductive Status : Type := pending | approved | rejected | expired.

Global Instance Status_eq_dec : EqDecision Status.
Proof. solve_decision. Defined.

Record EventProposal : Type := mkEventProposal {
  id : string;
  title : string;
  start_time : string;
  end_time : string;
  attendees : list string;
  description : string;
  location : string;
  status : Status;
  telegram_message_id : option string;
  chat_jid : string;
  created_at : string;
  resolved_at : option string;
}.

(** ** Effects: file system, clock and network *)

Module Effects.
Import JS.

(** What an [async] function can reject with. [Error] is the code's own
    [throw new Error(message)]; the others are thrown by the runtime. *)
Inductive Exn : Type :=
| Error (message : string)
| SyntaxError
| TypeError
| RangeError
| NetworkError (reason : string).

Inductive Outcome (A : Type) : Type :=
| Returned (a : A)
| Thrown (e : Exn).
Arguments Returned {A} a.
Arguments Thrown {A} e.

Record Request : Type := mkRequest {
  hostname : string;
  path : string;
  method : string;
  headers : list (string * string);
  postBody : string;
}.

Record Response : Type := mkResponse {
  status_code : Z;
  body : string;
}.

(** The promise of [httpsRequest] resolves with a response or rejects
    with the socket's error. *)
Inductive NetResult : Type :=
| Resolved (res : Response)
| Rejected (reason : string).

(** Effect-free code that may throw runs in [Outcome]; sequencing is
    written [x ← m; k], as for the other monads of stdpp. *)
Global Instance Outcome_ret : MRet Outcome := @Returned.
Global Instance Outcome_bind : MBind Outcome :=
  λ A B k o, match o with
             | Returned a => k a
             | Thrown e => Thrown e
             end.

(** Effectful code threads a world [W] and may throw. *)
Definition St (W A : Type) : Type := W → Outcome A * W.

Definition throw {W A} (e : Exn) : St W A := λ w, (Thrown e, w).

(** An effect-free step inside effectful code. *)
Definition lift {W A} (o : Outcome A) : St W A := λ w, (o, w).

(** [try { m } catch (e) { handler e }] *)
Definition try_catch {W A} (m : St W A) (handler : Exn → St W A) : St W A :=
  λ w, match m w with
       | (Returned a, w') => (Returned a, w')
       | (Thrown e, w') => handler e w'
       end.

Global Instance St_ret {W} : MRet (St W) := λ A a w, (Returned a, w).
Global Instance St_bind {W} : MBind (St W) :=
  λ A B k m w, match m w with
               | (Returned a, w') => k a w'
               | (Thrown e, w') => (Thrown e, w')
               end.

(** Effects visible outside the process, in the order they happen. *)
Inductive Effect : Type :=
| Https (req : Request)
| FsWrite (content : string).

(** The world a call runs in.  [oauth_file] is the content of
    [OAUTH_PATH] ([None]: no such file).  [clock] lists the successive
    readings of [Date.now()] and [network] the outcomes of the successive
    requests; [ticks] and [sent] count how many were consumed. *)
Record World : Type := mkWorld {
  oauth_file : option string;
  clock : nat → Z;
  ticks : nat;
  network : nat → NetResult;
  sent : nat;
  trace : list Effect;
}.

Abbreviation M := (St World).

(** The world after one more clock reading, after a request was sent,
    and after the credential file was written. *)
Definition tick (w : World) : World :=
  mkWorld (oauth_file w) (clock w) (S (ticks w)) (network w) (sent w) (trace w).

Definition sending (req : Request) (w : World) : World :=
  mkWorld (oauth_file w) (clock w) (ticks w) (network w) (S (sent w))
          (trace w ++ [Https req]).

Definition writing (content : string) (w : World) : World :=
  mkWorld (Some content) (clock w) (ticks w) (network w) (sent w)
          (trace w ++ [FsWrite content]).

(** The contents written to the credential file along a trace. *)
Definition writes (effects : list Effect) : list string :=
  omap (λ e, match e with FsWrite content => Some content | Https _ => None end) effects.

(** The requests sent along a trace. *)
Definition requests (effects : list Effect) : list Request :=
  omap (λ e, match e with Https req => Some req | FsWrite _ => None end) effects.

(** [Date.now()] *)
Definition Date_now : M Z :=
  λ w, (Returned (clock w (ticks w)), tick w).

(** [fs.existsSync(OAUTH_PATH)] *)
Definition fs_existsSync : M bool :=
  λ w, (Returned (if oauth_file w is Some _ then true else false), w).

(** [fs.readFileSync(OAUTH_PATH, 'utf-8')] *)
Definition fs_readFileSync : M string :=
  λ w, match oauth_file w with
       | Some content => (Returned content, w)
       | None => (Thrown (Error "ENOENT"), w)
       end.

(** [fs.writeFileSync(OAUTH_PATH, content)]: the file is replaced as a
    whole. *)
Definition fs_writeFileSync (content : string) : M unit :=
  λ w, (Returned (), writing content w).

(** [httpsRequest(options, postBody)]: the request goes out, then the
    promise settles. *)
Definition httpsRequest (req : Request) : M Response :=
  λ w, match network w (sent w) with
       | Resolved res => (Returned res, sending req w)
       | Rejected reason => (Thrown (NetworkError reason), sending req w)
       end.

(** [v.k]: reading a property of [null] or [undefined] throws; a
    property that is not there reads as [undefined].  The code reads no
    built-in property (such as [length]) this way. *)
Definition member (v : JSValue) (k : string) : Outcome JSValue :=
  match v with
  | JUndefined | JNull => Thrown TypeError
  | JObj props => Returned (default JUndefined (obj_lookup k props))
  | _ => Returned JUndefined
  end.

(** [v?.k] *)
Definition opt_member (v : JSValue) (k : string) : Outcome JSValue :=
  match v with
  | JUndefined | JNull => Returned JUndefined
  | _ => member v k
  end.

(** [try { return o } catch { return fallback }] around effect-free code. *)
Definition or_else {A} (o : Outcome A) (fallback : A) : A :=
  match o with
  | Returned a => a
  | Thrown _ => fallback
  end.

Section WithRuntime.
Context {rt : Runtime}.

(** [JSON.parse(text)] *)
Definition parse (text : string) : Outcome JSValue :=
  match JSON_parse text with
  | Some v => Returned v
  | None => Thrown SyntaxError
  end.

(** [TimeClip]: a time value beyond 8.64e15 ms is [NaN]. *)
Definition TimeClip (t : Z) : option Z :=
  if bool_decide (Z.abs t ≤ 8640000000000000) then Some t else None.

(** [ToNumber(v)], [None] for [NaN]; objects and arrays go through their
    string conversion. *)
Definition ToNumber (v : JSValue) : option Z :=
  match v with
  | JUndefined => None
  | JNull => Some 0
  | JBool b => Some (if b then 1 else 0)
  | JNum n => Some n
  | JStr s => StringToNumber s
  | JArr _ | JObj _ => StringToNumber (ToString v)
  end.

(** [new Date(v).getTime()], [None] for [NaN]. *)
Definition Date_getTime (v : JSValue) : option Z :=
  match v with
  | JStr s => Date_parse s
  | JArr _ | JObj _ => Date_parse (ToString v)
  | _ => n ← ToNumber v; TimeClip n
  end.

End WithRuntime.

End Effects.

(** ** [src/calendar-approval.ts] *)

Module CalendarApproval.
Import JS Effects.

Section WithRuntime.
Context {rt : Runtime} {cfg : Config}.

Definition EXPIRY_BUFFER_MS : Z := 5 * 60 * 1000.

(** The request [refreshToken] posts to the token endpoint. *)
Definition token_request (creds_client_id creds_client_secret creds_refresh_token : JSValue)
  : Request :=
  let body := URLSearchParams_toString
                [("client_id", ToString creds_client_id);
                 ("client_secret", ToString creds_client_secret);
                 ("refresh_token", ToString creds_refresh_token);
                 ("grant_type", "refresh_token")] in
  mkRequest "oauth2.googleapis.com" "/token" "POST"
            [("Content-Type", "application/x-www-form-urlencoded");
             ("Content-Length", pretty (Buffer_byteLength body))]
            body.

(** Lines 59-65: the detail of a failed refresh,
    [parsed.error_description || parsed.error || res.body], or the raw
    body when the [try] block throws. *)
Definition refresh_error_detail (res_body : string) : JSValue :=
  or_else (parsed ← parse res_body;
           error_description ← member parsed "error_description";
           if truthy error_description then mret error_description
           else error ← member parsed "error";
                mret (js_or error (JStr res_body)))
          (JStr res_body).

(** [refreshToken(creds)]; the result is the object
    [{ access_token, token_expiry }]. *)
Definition refreshToken (creds : JSValue) : M JSValue :=
  client_id ← lift (member creds "client_id");
  client_secret ← lift (member creds "client_secret");
  refresh_token ← lift (member creds "refresh_token");
  res ← httpsRequest (token_request client_id client_secret refresh_token);
  if bool_decide (status_code res ≠ 200) then
    throw (Error ("Token refresh failed: " ++ ToString (refresh_error_detail (body res))))
  else
    data ← lift (parse (body res));
    access_token ← lift (member data "access_token");
    now ← Date_now;
    expires_in ← lift (member data "expires_in");
    match n ← ToNumber expires_in; TimeClip (now + n * 1000) with
    | Some t => mret (JObj [("access_token", access_token);
                            ("token_expiry", JStr (Date_toISOString t))])
    | None => throw RangeError
    end.

(** Lines 91-98 of [getAccessToken]: refresh, write the merged record
    back, return the new token. *)
Definition refresh_and_store (creds : JSValue) : M JSValue :=
  fresh ← refreshToken creds;
  let updated := spread creds fresh in
  fs_writeFileSync (JSON_stringify updated);;
  lift (member fresh "access_token").

(** [getAccessToken()] *)
Definition getAccessToken : M JSValue :=
  present ← fs_existsSync;
  if negb present then
    throw (Error ("OAuth credentials not found at " ++ OAUTH_PATH))
  else
    text ← fs_readFileSync;
    creds ← lift (parse text);
    access_token ← lift (member creds "access_token");
    has_both ← (if truthy access_token then lift (member creds "token_expiry")
                else mret access_token);
    if truthy has_both then
      token_expiry ← lift (member creds "token_expiry");
      let expiry := Date_getTime token_expiry in
      now ← Date_now;
      if match expiry with
         | Some e => bool_decide (now < e - EXPIRY_BUFFER_MS)
         | None => false
         end
      then lift (member creds "access_token")
      else refresh_and_store creds
    else refresh_and_store creds.

(** [parseApiError(body)] *)
Definition parseApiError (res_body : string) : JSValue :=
  or_else (parsed ← parse res_body;
           error ← member parsed "error";
           message ← opt_member error "message";
           if truthy message then mret message
           else error_description ← member parsed "error_description";
                mret (js_or error_description (JStr res_body)))
          (JStr res_body).

(** Lines 106-116: the event object sent to the calendar API. *)
Definition event_payload (proposal : EventProposal) : JSValue :=
  let event :=
    [("summary", JStr (title proposal));
     ("description", js_or (JStr (description proposal)) JUndefined);
     ("location", js_or (JStr (location proposal)) JUndefined);
     ("start", JObj [("dateTime", JStr (start_time proposal)); ("timeZone", JStr TIMEZONE)]);
     ("end", JObj [("dateTime", JStr (end_time proposal)); ("timeZone", JStr TIMEZONE)])] in
  if bool_decide (0 < length (attendees proposal))%nat then
    JObj (obj_set "attendees"
                  (JArr (map (λ email, JObj [("email", JStr email)]) (attendees proposal)))
                  event)
  else JObj event.

(** The create-event request. *)
Definition create_request (token : JSValue) (post_body : string) : Request :=
  mkRequest "www.googleapis.com" "/calendar/v3/calendars/primary/events" "POST"
            [("Authorization", "Bearer " ++ ToString token);
             ("Content-Type", "application/json");
             ("Content-Length", pretty (Buffer_byteLength post_body))]
            post_body.

Definition api_error (res : Response) : Exn :=
  Error ("Calendar API error " ++ pretty (status_code res) ++ ": "
         ++ ToString (parseApiError (body res))).

(** [return { eventId: data.id, htmlLink: data.htmlLink }] *)
Definition created_event (res : Response) : Outcome (JSValue * JSValue) :=
  data ← parse (body res);
  eventId ← member data "id";
  htmlLink ← member data "htmlLink";
  mret (eventId, htmlLink).

(** [createCalendarEvent(proposal)]; the [logger.warn] of the retry branch
    has no effect on the result and is left out. *)
Definition createCalendarEvent (proposal : EventProposal) : M (JSValue * JSValue) :=
  token ← getAccessToken;
  let post_body := JSON_stringify (event_payload proposal) in
  res ← httpsRequest (create_request token post_body);
  if bool_decide (status_code res = 401) then
    freshToken ← getAccessToken;
    retryRes ← httpsRequest (create_request freshToken post_body);
    if bool_decide (status_code retryRes ≠ 200) then throw (api_error retryRes)
    else lift (created_event retryRes)
  else if bool_decide (status_code res ≠ 200) then throw (api_error res)
  else lift (created_event res).

(** *** Notions used to state the properties *)

(** The request a refresh sends for the record [creds]. *)
Definition refresh_request (creds : JSValue) : Request :=
  token_request (or_else (member creds "client_id") JUndefined)
                (or_else (member creds "client_secret") JUndefined)
                (or_else (member creds "refresh_token") JUndefined).

(** The object [refreshToken] returns. *)
Definition fresh_record (access_token : JSValue) (expiry : Z) : JSValue :=
  JObj [("access_token", access_token); ("token_expiry", JStr (Date_toISOString expiry))].

(** Lines 69-73 as a function of the response body and of the clock
    reading: the new token and the time it expires at. *)
Definition granted (res_body : string) (now : Z) : Outcome (JSValue * Z) :=
  data ← parse res_body;
  access_token ← member data "access_token";
  expires_in ← member data "expires_in";
  match n ← ToNumber expires_in; TimeClip (now + n * 1000) with
  | Some expiry => Returned (access_token, expiry)
  | None => Thrown RangeError
  end.

(** A value whose properties can be read: anything but [null] and
    [undefined]. *)
Definition readable (v : JSValue) : Prop := v ≠ JUndefined ∧ v ≠ JNull.

(** A stored field that is missing or empty. *)
Definition missing_or_empty (field : option JSValue) : Prop :=
  field = None ∨ field = Some (JStr "").



(** A run from [w] to [w'] with outcome [o] refreshed the record [creds]
    at the clock reading [now]: it sent the one request to the token
    endpoint, and then either returned the granted token with the merged
    record already written to the file, in a single write, or threw and
    wrote nothing. *)
Inductive Refreshed (creds : JSValue) (now : Z) (w : World)
  : Outcome JSValue → World → Prop :=
| Refreshed_granted res access_token expiry w' :
    network w (sent w) = Resolved res →
    status_code res = 200 →
    granted (body res) now = Returned (access_token, expiry) →
    let content := JSON_stringify (spread creds (fresh_record access_token expiry)) in
    sent w' = S (sent w) →
    trace w' = (trace w ++ [Https (refresh_request creds); FsWrite content])%list →
    oauth_file w' = Some content →
    Refreshed creds now w (Returned access_token) w'
| Refreshed_failed e w' :
    match network w (sent w) with
    | Resolved res =>
        status_code res ≠ 200 ∨ ∃ e', granted (body res) now = Thrown e'
    | Rejected _ => True
    end →
    sent w' = S (sent w) →
    trace w' = (trace w ++ [Https (refresh_request creds)])%list →
    oauth_file w' = oauth_file w →
    Refreshed creds now w (Thrown e) w'.

End WithRuntime.

End CalendarApproval.

(** ** [src/channels/telegram.ts]: event proposals *)

Module Telegram.
Import JS Effects.

(** One button of an inline keyboard: its label and the callback data
    Telegram sends back when it is tapped. *)
Record Button : Type := mkButton {
  label : string;
  callback_data : string;
}.

(** The arguments of one [bot.api.sendMessage] call. *)
Record OutMessage : Type := mkOutMessage {
  chat_id : string;
  text : string;
  parse_mode : string;
  reply_markup : list Button;
}.

(** [bot.api.sendMessage] resolves with the sent message (only its
    [message_id] is read) or rejects. *)
Inductive SendResult : Type :=
| Delivered (message_id : Z)
| Failed (reason : string).

(** The state a [TelegramChannel] method runs in: whether [this.bot] is
    set, the outcomes of the successive [sendMessage] calls and the calls
    made so far.  [event_proposals] is the proposal table behind
    [src/db.ts], which the module imports. *)
Record Channel : Type := mkChannel {
  connected : bool;
  telegram : nat → SendResult;
  outbox : list OutMessage;
  event_proposals : gmap string EventProposal;
}.

(** [this.bot.api.sendMessage(chat, text, { parse_mode, reply_markup })] *)
Definition api_sendMessage (msg : OutMessage) : St Channel Z :=
  λ ch, let ch' := mkChannel (connected ch) (telegram ch) (outbox ch ++ [msg])
                             (event_proposals ch) in
        match telegram ch (length (outbox ch)) with
        | Delivered message_id => (Returned message_id, ch')
        | Failed reason => (Thrown (NetworkError reason), ch')
        end.

(** [jid.replace(/^tg:/, '')] *)
Definition strip_tg (jid : string) : string :=
  if startsWith "tg:" jid then String.substring 3 (String.length jid - 3) jid
  else jid.

Definition newline : string := String (Ascii.ascii_of_nat 10) "".

Section WithRuntime.
Context {rt : Runtime}.

(** Lines 277-298: the text of the approval message. *)
Definition proposal_text (proposal : EventProposal) : string :=
  let startDate := Date_parse (start_time proposal) in
  let endDate := Date_parse (end_time proposal) in
  let dateStr := toLocaleDateString startDate in
  let startStr := toLocaleTimeString startDate in
  let endStr := toLocaleTimeString endDate in
  let text := "📅 *" ++ title proposal ++ "*" ++ newline
              ++ dateStr ++ ", " ++ startStr ++ " – " ++ endStr in
  let text := if bool_decide (0 < length (attendees proposal))%nat
              then text ++ newline ++ "Attendees: "
                   ++ String.concat ", " (attendees proposal)
              else text in
  let text := if negb (String.eqb (location proposal) "")
              then text ++ newline ++ "Location: " ++ location proposal
              else text in
  if negb (String.eqb (description proposal) "")
  then text ++ newline ++ newline ++ description proposal
  else text.

(** Lines 300-302: the inline keyboard. *)
Definition proposal_keyboard (proposal : EventProposal) : list Button :=
  [mkButton "✅ Create" ("event:approve:" ++ id proposal);
   mkButton "❌ Skip" ("event:skip:" ++ id proposal)].

(** [sendEventProposal(jid, proposal)]: [Some] message id, or [None] for
    [undefined].  The two [logger] calls are left out. *)
Definition sendEventProposal (jid : string) (proposal : EventProposal)
  : St Channel (option string) :=
  λ ch,
    if negb (connected ch) then (Returned None, ch)
    else
      try_catch
        (let numericId := strip_tg jid in
         msg ← api_sendMessage (mkOutMessage numericId (proposal_text proposal)
                                             "Markdown" (proposal_keyboard proposal));
         mret (Some (pretty msg)))
        (λ err, mret None)
        ch.

End WithRuntime.

(** Lines 121-129, the [callback_query:data] handler: the arguments
    [(proposalId, action)] it calls [onEventCallback] with, or [None] when
    it returns without calling it.  An array position the split does not
    reach destructures to [undefined] (the inner [None]). *)
Definition callback_query_args (data : string) : option (option string * option string) :=
  if negb (startsWith "event:" data) then None
  else
    let parts := split_on colon data in
    let action := parts !! 1%nat in
    let proposalId := parts !! 2%nat in
    Some (proposalId, action).

(** The handler itself, over any world [W] the callback of the host
    ([opts.onEventCallback], optional) acts on. *)
Definition on_callback_query {W}
    (onEventCallback : option (option string → option string → St W unit))
    (data : string) : St W unit :=
  match callback_query_args data with
  | None => mret ()
  | Some (proposalId, action) =>
      match onEventCallback with
      | Some callback => callback proposalId action
      | None => mret ()
      end
  end.

End Telegram.

(** ** The proposal store *)

Module ProposalStore.

(** Modelled from the spec: the Proposal Store ([src/db.ts]) is not among
    the sources.  Section 4.2 of the specification gives its contract:
    durable keyed storage whose sole mutation path is [transition(id,
    expectedCurrentStatus, newStatus, extra?)], an atomic compare-and-set
    that succeeds only if the stored status equals
    [expectedCurrentStatus] at the moment of the update and otherwise
    fails with a conflict signal. *)
Inductive TransitionResult : Type := Success | Conflict.

Global Instance TransitionResult_eq_dec : EqDecision TransitionResult.
Proof. solve_decision. Defined.

(** Modelled from the spec: a stored record is the proposal together with
    the [{externalId, externalLink}] a transition to [approved] attaches
    (section 4.6, step 6). *)
Record Stored : Type := mkStored {
  proposal : EventProposal;
  external : option (string * string);
}.

Definition with_status (new : Status) (p : EventProposal) : EventProposal :=
  mkEventProposal (id p) (title p) (start_time p) (end_time p) (attendees p)
                  (description p) (location p) new (telegram_message_id p)
                  (chat_jid p) (created_at p) (resolved_at p).

(** Modelled from the spec: [transition], one atomic step of the store.
    An id the store does not hold has no stored status to match, so the
    call conflicts. *)
Definition transition (key : string) (expectedCurrentStatus newStatus : Status)
    (extra : option (string * string)) (store : gmap string Stored)
  : TransitionResult * gmap string Stored :=
  match store !! key with
  | Some r =>
      if decide (status (proposal r) = expectedCurrentStatus) then
        (Success,
         <[key := mkStored (with_status newStatus (proposal r))
                           (from_option Some (external r) extra)]> store)
      else (Conflict, store)
  | None => (Conflict, store)
  end.

(** One caller's request. *)
Record Call : Type := mkCall {
  target : string;
  expected : Status;
  new_status : Status;
  extra_fields : option (string * string);
}.

(** Modelled from the spec: since [transition] is atomic, an execution
    with any number of concurrent callers is some order in which the store
    takes their calls one after the other (section 5: transitions are
    linearizable).  [run] plays such an order and gives every call its
    result. *)
Fixpoint run (schedule : list Call) (store : gmap string Stored)
  : list (Call * TransitionResult) * gmap string Stored :=
  match schedule with
  | [] => ([], store)
  | c :: rest =>
      let '(result, store') :=
        transition (target c) (expected c) (new_status c) (extra_fields c) store in
      let '(results, final) := run rest store' in
      ((c, result) :: results, final)
  end.

(** The results the callers that targeted [key] received, in order. *)
Definition results_for (key : string) (results : list (Call * TransitionResult))
  : list TransitionResult :=
  snd <$> filter (λ cr, target cr.1 = key) results.

End ProposalStore.

(** ** Sample data

    A small runtime and a few records to run the model on: JSON texts are
    looked up in a table and times are written as epoch milliseconds. *)

Module Sample.
Import JS Effects.

Fixpoint digits_value (acc : Z) (s : string) : option Z :=
  match s with
  | EmptyString => Some acc
  | String c rest =>
      let d := Z.of_nat (Ascii.nat_of_ascii c) - 48 in
      if bool_decide (0 ≤ d ≤ 9) then digits_value (10 * acc + d) rest else None
  end.

Definition parse_decimal (s : string) : option Z :=
  if String.eqb s "" then None else digits_value 0 s.

Definition credential_fields (access_token token_expiry : string) : Props :=
  [("client_id", JStr "client-1");
   ("client_secret", JStr "secret-1");
   ("refresh_token", JStr "refresh-1");
   ("access_token", JStr access_token);
   ("token_expiry", JStr token_expiry);
   ("scopes", JArr [JStr "calendar.events"])].

Definition credentials (access_token token_expiry : string) : JSValue :=
  JObj (credential_fields access_token token_expiry).

Definition json_table : list (string * JSValue) :=
  [("oauth.json", credentials "stored-token" "2000000");
   ("oauth-no-token.json", credentials "" "2000000");
   ("oauth-stale.json", credentials "stored-token" "1000");
   ("token-granted", JObj [("access_token", JStr "new-token"); ("expires_in", JNum 3600)]);
   ("token-denied", JObj [("error", JStr "invalid_grant");
                          ("error_description", JStr "Token has been revoked.")]);
   ("event-created", JObj [("id", JStr "evt-1"); ("htmlLink", JStr "https://calendar/evt-1")]);
   ("unauthorized", JObj [("error", JObj [("code", JNum 401);
                                         ("message", JStr "Invalid Credentials")])]);
   ("quota", JObj [("error", JObj [("code", JNum 403);
                                  ("message", JStr "Rate Limit Exceeded")])])].

Definition show (v : JSValue) : string :=
  match v with
  | JObj props => "{" ++ String.concat "," props.*1 ++ "}"
  | _ => ToString v
  end.

Definition runtime : Runtime := {|
  JSON_parse := λ text, obj_lookup text json_table;
  JSON_stringify := show;
  Date_parse := parse_decimal;
  Date_toISOString := pretty;
  StringToNumber := parse_decimal;
  URLSearchParams_toString := λ fields, String.concat "&" ((λ kv, kv.1 ++ "=" ++ kv.2) <$> fields);
  Buffer_byteLength := λ s, Z.of_nat (String.length s);
  toLocaleDateString := λ t, from_option pretty "Invalid Date" t;
  toLocaleTimeString := λ t, from_option pretty "Invalid Date" t;
|}.

Definition config : Config := {|
  OAUTH_PATH := "/home/user/.google-oauth/oauth.json";
  TIMEZONE := "Europe/Warsaw";
|}.

(** A world whose clock always reads 1000000 ms, with the given
    credential file and network. *)
Definition world (file : option string) (net : nat → NetResult) : World :=
  mkWorld file (λ _, 1000000) 0 net 0 [].

(** A network that answers the successive requests with the listed
    responses and rejects any further one. *)
Definition answers (responses : list Response) : nat → NetResult :=
  λ n, from_option Resolved (Rejected "ECONNRESET") (responses !! n).

Definition coffee : EventProposal :=
  mkEventProposal "prop-1" "Coffee with Alice" "3000000" "4800000"
                  ["alice@example.com"] "" "" pending None "tg:42" "900000" None.

Definition standup : EventProposal :=
  mkEventProposal "prop-2" "Standup" "3000000" "3900000"
                  [] "Daily" "Room 1" pending None "tg:42" "900000" None.

(** A host callback that only records what it is called with. *)
Definition record_call (proposalId action : option string)
  : St (list (option string * option string)) unit :=
  λ calls, (Returned (), (calls ++ [(proposalId, action)])%list).

(** A store holding the two sample proposals, both pending. *)
Definition store : gmap string ProposalStore.Stored :=
  {[ "prop-1" := ProposalStore.mkStored coffee None;
     "prop-2" := ProposalStore.mkStored standup None ]}.

(** Two taps on [prop-1] (approve, then reject), the sweeper on [prop-1]
    and a tap on [prop-2], in the order the store takes them. *)
Definition schedule : list ProposalStore.Call :=
  [ProposalStore.mkCall "prop-2" pending rejected None;
   ProposalStore.mkCall "prop-1" pending approved (Some ("evt-1", "https://calendar/evt-1"));
   ProposalStore.mkCall "prop-1" pending rejected None;
   ProposalStore.mkCall "prop-1" pending expired None].

End Sample.


(** ** Counting the effects of a run *)

Module Counting.
Import Effects.

(** The requests of a trace that went to the host [host]. *)
Definition requests_to (host : string) (effects : list Effect) : list Request :=
  List.filter (λ req, String.eqb (hostname req) host) (requests effects).

(** What one call of [getAccessToken] may add to the trace, [new], on
    its way from [w] to [w'] with outcome [o]: nothing, the file being
    left as it was; or one POST to [oauth2.googleapis.com/token], followed
    either by a throw with the file left as it was, or, the endpoint
    having answered 200, by one write of the file and a normal return. *)
Definition token_effects (w : World) (o : Outcome JS.JSValue) (w' : World)
    (new : list Effect) : Prop :=
  (new = [] ∧ oauth_file w' = oauth_file w)
  ∨ ∃ req,
      hostname req = "oauth2.googleapis.com" ∧ path req = "/token"
      ∧ method req = "POST"
      ∧ ((new = [Https req] ∧ oauth_file w' = oauth_file w ∧ ∃ e, o = Thrown e)
         ∨ ∃ content res token,
             new = [Https req; FsWrite content]
             ∧ oauth_file w' = Some content
             ∧ network w (sent w) = Resolved res ∧ status_code res = 200
             ∧ o = Returned token).

End Counting.

(** ** JavaScript strings by code unit

    A JavaScript string is a sequence of 16-bit UTF-16 code units, and
    [length], [slice] and [substring] count code units.  The code above
    only compares and concatenates its strings, which the UTF-8 bytes of a
    [string] do as well; the code below measures and cuts the text of a
    message, so that text is kept as its code units. *)

Module UTF16.

Definition CodeUnit : Type := N.

Definition Text : Type := list CodeUnit.

(** [s.slice(from, to)] for indices that are not negative: the units
    from position [from] up to, not including, position [to], both capped
    at the length; nothing when [to] is not beyond [from]. *)
Definition slice (from to : nat) (s : Text) : Text :=
  take (to - from) (drop from s).

(** [s.substring(from, to)]: as [slice], with the two indices swapped
    when [from] is the larger. *)
Definition substring (from to : nat) (s : Text) : Text :=
  slice (from `min` to) (from `max` to) s.

(** A string that goes into the record of a call is written there as the
    bytes of its UTF-8 form, the representation of every other string of
    that record.  [code_points] reads the units as code points: a lead
    surrogate followed by a trail surrogate is one code point beyond
    U+FFFF, and any other unit stands for itself, a surrogate without its
    partner included (a slice can cut a pair in two), so that no two texts
    are written as the same bytes. *)
Definition is_lead (u : CodeUnit) : bool := ((0xD800 <=? u) && (u <=? 0xDBFF))%N.

Definition is_trail (u : CodeUnit) : bool := ((0xDC00 <=? u) && (u <=? 0xDFFF))%N.

Fixpoint code_points (s : Text) : list N :=
  match s with
  | [] => []
  | u :: rest =>
      match rest with
      | v :: rest' =>
          if is_lead u && is_trail v
          then (0x10000 + (u - 0xD800) * 0x400 + (v - 0xDC00))%N :: code_points rest'
          else u :: code_points rest
      | [] => [u]
      end
  end.

(** The one to four bytes of a code point. *)
Definition utf8_bytes (c : N) : list N :=
  (if c <? 0x80 then [c]
   else if c <? 0x800 then [0xC0 + c / 0x40; 0x80 + c mod 0x40]
   else if c <? 0x10000 then
     [0xE0 + c / 0x1000; 0x80 + (c / 0x40) mod 0x40; 0x80 + c mod 0x40]
   else
     [0xF0 + c / 0x40000; 0x80 + (c / 0x1000) mod 0x40; 0x80 + (c / 0x40) mod 0x40;
      0x80 + c mod 0x40])%N.

Definition utf8 (s : Text) : string :=
  String.string_of_list_ascii (Ascii.ascii_of_N <$> (code_points s ≫= utf8_bytes)).

(** The way back, from the bytes to the code units: it gives the text of
    a string literal, and it shows that [utf8] loses nothing.
    [read_points] reads the code points off well-formed bytes, and a
    code point beyond U+FFFF is a pair of surrogates. *)
Fixpoint read_points (bytes : list N) : list N :=
  match bytes with
  | [] => []
  | b0 :: r0 =>
      if (b0 <? 0x80)%N then b0 :: read_points r0
      else
        match r0 with
        | b1 :: r1 =>
            if (b0 <? 0xE0)%N then ((b0 - 0xC0) * 0x40 + (b1 - 0x80))%N :: read_points r1
            else
              match r1 with
              | b2 :: r2 =>
                  if (b0 <? 0xF0)%N
                  then ((b0 - 0xE0) * 0x1000 + (b1 - 0x80) * 0x40 + (b2 - 0x80))%N
                       :: read_points r2
                  else
                    match r2 with
                    | b3 :: r3 =>
                        ((b0 - 0xF0) * 0x40000 + (b1 - 0x80) * 0x1000
                         + (b2 - 0x80) * 0x40 + (b3 - 0x80))%N :: read_points r3
                    | [] => []
                    end
              | [] => []
              end
        | [] => []
        end
  end.

Definition units_of_point (c : N) : Text :=
  (if c <? 0x10000 then [c]
   else [0xD800 + (c - 0x10000) / 0x400; 0xDC00 + (c - 0x10000) mod 0x400])%N.

Definition utf16 (s : string) : Text :=
  read_points (Ascii.N_of_ascii <$> String.list_ascii_of_string s) ≫= units_of_point.

(** Every unit of the text is a 16-bit number. *)
Definition code_units (s : Text) : Prop := Forall (λ u, (u < 0x10000)%N) s.

End UTF16.

(** ** [src/channels/telegram.ts]: messages in and out *)

Module TelegramChannel.
Import JS Effects Telegram UTF16.

(** [ownsJid(jid)] *)
Definition ownsJid (jid : string) : bool := startsWith "tg:" jid.

(** [isConnected()] *)
Definition isConnected (ch : Channel) : bool := connected ch.

(** [disconnect()]: [this.bot] is reset; [bot.stop()] sends nothing. *)
Definition disconnect : St Channel unit :=
  λ ch, if connected ch
        then (Returned (), mkChannel false (telegram ch) (outbox ch) (event_proposals ch))
        else (Returned (), ch).

(** [`tg:${ctx.chat.id}`] *)
Definition chat_jid_of (chat_id : Z) : string := "tg:" ++ pretty chat_id.

(** *** [sendMessage] *)

Definition MAX_LENGTH : nat := 4096.

(** The values [i] takes in [for (let i = 0; i < n; i += step)] from [i]
    on; [fuel] bounds the number of iterations played. *)
Fixpoint loop_indices (step fuel i n : nat) : list nat :=
  match fuel with
  | O => []
  | S fuel' => if (i <? n)%nat then i :: loop_indices step fuel' (i + step) n else []
  end.

(** The chunks [sendMessage] cuts [text] into: the text itself when
    [text.length] is at most 4096, otherwise the slices of the loop.  One
    iteration per code unit is more than the loop can take. *)
Definition message_chunks (text : Text) : list Text :=
  if (length text <=? MAX_LENGTH)%nat then [text]
  else (λ i, slice i (i + MAX_LENGTH) text)
       <$> loop_indices MAX_LENGTH (length text) 0 (length text).

(** A call [bot.api.sendMessage(chat, chunk, { parse_mode: 'Markdown' })],
    and the same call without options: no parse mode, no keyboard. *)
Definition markdown_message (numericId : string) (chunk : Text) : OutMessage :=
  mkOutMessage numericId (utf8 chunk) "Markdown" [].

Definition plain_message (numericId : string) (chunk : Text) : OutMessage :=
  mkOutMessage numericId (utf8 chunk) "" [].

(** The channel after one more [sendMessage] call. *)
Definition called (msg : OutMessage) (ch : Channel) : Channel :=
  mkChannel (connected ch) (telegram ch) (outbox ch ++ [msg]) (event_proposals ch).

(** A call that carries one of the chunks [chunks] to the chat
    [numericId], in Markdown mode or as plain text, without a keyboard. *)
Definition carries (numericId : string) (chunks : list Text) (msg : OutMessage) : Prop :=
  ∃ chunk, chunk ∈ chunks
           ∧ (msg = markdown_message numericId chunk ∨ msg = plain_message numericId chunk).

(** [sendChunk(chunk)]: Markdown first, plain text when that throws. *)
Definition sendChunk (numericId : string) (chunk : Text) : St Channel unit :=
  try_catch (_ ← api_sendMessage (markdown_message numericId chunk); mret ())
            (λ _, _ ← api_sendMessage (plain_message numericId chunk); mret ()).

(** The chunks are sent one after the other; the first exception ends
    the loop. *)
Fixpoint send_chunks (numericId : string) (chunks : list Text) : St Channel unit :=
  match chunks with
  | [] => mret ()
  | chunk :: rest => sendChunk numericId chunk;; send_chunks numericId rest
  end.

(** [sendMessage(jid, text)]; the [logger] calls are left out. *)
Definition sendMessage (jid : string) (text : Text) : St Channel unit :=
  λ ch,
    if negb (connected ch) then (Returned (), ch)
    else
      try_catch (let numericId := strip_tg jid in
                 send_chunks numericId (message_chunks text))
                (λ err, mret ())
                ch.

(** *** Inbound messages *)

(** What the handlers read of a grammy context.  The offset and the
    length of an entity count UTF-16 code units of the text, as the Bot
    API gives them. *)
Record User : Type := mkUser {
  user_id : Z;
  first_name : string;
  username : option string;
}.

Record Chat : Type := mkChat {
  chat_ident : Z;
  chat_type : string;
  chat_title : option string;
}.

Record Entity : Type := mkEntity {
  entity_type : string;
  entity_offset : nat;
  entity_length : nat;
}.

Record Message : Type := mkMessage {
  message_ident : Z;
  date : Z;
  message_text : Text;
  caption : option string;
  entities : option (list Entity);
}.

Record Context : Type := mkContext {
  message : Message;
  from : option User;
  chat : Chat;
  me_username : option Text;
}.

(** The object handed to [opts.onMessage]. *)
Record NewMessage : Type := mkNewMessage {
  msg_id : string;
  msg_chat_jid : string;
  msg_sender : string;
  msg_sender_name : string;
  msg_content : string;
  msg_timestamp : string;
  msg_is_from_me : bool;
}.

(** The calls a handler makes to the callbacks of the host, which are
    taken to return. *)
Inductive HostCall : Type :=
| OnChatMetadata (chatJid timestamp : string) (name : option string)
| OnMessage (chatJid : string) (msg : NewMessage).

(** What the handlers take from their environment: two constants of
    [src/config.ts], the lower-casing of the runtime and, at each call,
    the registered groups ([opts.registeredGroups()]) by jid. *)
Class Host : Type := {
  ASSISTANT_NAME : Text;
  (** [TRIGGER_PATTERN.test] *)
  TRIGGER_PATTERN_test : Text → bool;
  (** [String.prototype.toLowerCase] *)
  toLowerCase : Text → Text;
}.

(** The code units of ['/'], ['@'] and [' ']. *)
Definition slash : CodeUnit := 47%N.
Definition at_sign : CodeUnit := 64%N.
Definition space : CodeUnit := 32%N.

Section WithRuntime.
Context {rt : Runtime} {host : Host}.

(** [new Date(seconds * 1000).toISOString()] *)
Definition timestamp_of (seconds : Z) : Outcome string :=
  match TimeClip (seconds * 1000) with
  | Some t => Returned (Date_toISOString t)
  | None => Thrown RangeError
  end.

(** [a || b] on strings. *)
Definition str_or (a b : string) : string := if String.eqb a "" then b else a.

(** [ctx.from?.first_name || ctx.from?.username || ctx.from?.id.toString()
    || 'Unknown'] *)
Definition sender_name_of (sender : option User) : string :=
  match sender with
  | Some u => str_or (first_name u)
                     (str_or (default "" (username u))
                             (str_or (pretty (user_id u)) "Unknown"))
  | None => "Unknown"
  end.

(** [ctx.from?.id.toString() || ''] *)
Definition sender_of (sender : option User) : string :=
  match sender with
  | Some u => str_or (pretty (user_id u)) ""
  | None => ""
  end.

(** [ctx.message.text.startsWith('/')] *)
Definition is_command (text : Text) : bool :=
  match text with
  | u :: _ => (u =? slash)%N
  | [] => false
  end.

(** Lines 159-165: whether the entity is a [mention] whose text, lower
    case, is [@] followed by the bot's user name. *)
Definition mentions (botUsername content : Text) (entity : Entity) : bool :=
  if String.eqb (entity_type entity) "mention" then
    let mentionText :=
      toLowerCase (substring (entity_offset entity)
                             (entity_offset entity + entity_length entity) content) in
    bool_decide (mentionText = at_sign :: botUsername)
  else false.

(** Lines 158-166: [entities.some(...)]. *)
Definition isBotMentioned (botUsername content : Text) (ents : list Entity) : bool :=
  existsb (mentions botUsername content) ents.

(** Lines 136-170: the content delivered for a text message. *)
Definition translated_content (ctx : Context) : Text :=
  let content := message_text (message ctx) in
  let botUsername := toLowerCase <$> me_username ctx in
  match botUsername with
  | Some botUsername =>
      if bool_decide (botUsername = []) then content
      else
        let ents := default [] (entities (message ctx)) in
        if isBotMentioned botUsername content ents
           && negb (TRIGGER_PATTERN_test content)
        then (at_sign :: ASSISTANT_NAME ++ space :: content)%list
        else content
  | None => content
  end.

(** Lines 131-200, the [message:text] handler. *)
Definition on_message_text (registeredGroups : gset string) (ctx : Context)
  : Outcome (list HostCall) :=
  if is_command (message_text (message ctx)) then mret []
  else
    let chatJid := chat_jid_of (chat_ident (chat ctx)) in
    timestamp ← timestamp_of (date (message ctx));
    let senderName := sender_name_of (from ctx) in
    let sender := sender_of (from ctx) in
    let msgId := pretty (message_ident (message ctx)) in
    let chatName :=
      if String.eqb (chat_type (chat ctx)) "private" then senderName
      else str_or (default "" (chat_title (chat ctx))) chatJid in
    let content := translated_content ctx in
    let metadata := OnChatMetadata chatJid timestamp (Some chatName) in
    if bool_decide (chatJid ∈ registeredGroups) then
      mret [metadata;
            OnMessage chatJid
                      (mkNewMessage msgId chatJid sender senderName (utf8 content)
                                    timestamp false)]
    else mret [metadata].

(** Lines 203-226, [storeNonText(ctx, placeholder)]. *)
Definition storeNonText (registeredGroups : gset string) (ctx : Context)
    (placeholder : string) : Outcome (list HostCall) :=
  let chatJid := chat_jid_of (chat_ident (chat ctx)) in
  if negb (bool_decide (chatJid ∈ registeredGroups)) then mret []
  else
    timestamp ← timestamp_of (date (message ctx));
    let senderName := sender_name_of (from ctx) in
    let caption_text :=
      match caption (message ctx) with
      | Some c => if String.eqb c "" then "" else " " ++ c
      | None => ""
      end in
    mret [OnChatMetadata chatJid timestamp None;
          OnMessage chatJid
                    (mkNewMessage (pretty (message_ident (message ctx))) chatJid
                                  (sender_of (from ctx)) senderName
                                  (placeholder ++ caption_text) timestamp false)].

End WithRuntime.

End TelegramChannel.

(** ** More sample data *)

Module MoreSamples.
Import JS Effects Telegram UTF16 TelegramChannel.

(** A connected channel that has made no call yet; its calls get the
    listed results, and fail once the list is used up. *)
Definition channel (results : list SendResult) : Channel :=
  mkChannel true (λ n, default (Failed "ETIMEDOUT") (results !! n)) [] ∅.

(** Lower-casing of the letters A to Z. *)
Definition lower_unit (u : CodeUnit) : CodeUnit :=
  if ((65 <=? u) && (u <=? 90))%N then (u + 32)%N else u.

Definition lower (s : Text) : Text := lower_unit <$> s.

Definition host : Host := {|
  ASSISTANT_NAME := utf16 "Zorya";
  TRIGGER_PATTERN_test :=
    λ content, bool_decide (take 7 (lower content) = utf16 "@zorya ");
  toLowerCase := lower;
|}.

Definition alice : User := mkUser 7 "Alice" (Some "alice_a").

Definition family : Chat := mkChat (-100) "group" (Some "Family").

(** A text message in Polish that mentions the bot after two letters
    outside ASCII, each a single code unit and two bytes of UTF-8: the
    mention starts at code unit 6 of the text. *)
Definition greeting : Context :=
  mkContext (mkMessage 15 1000 (utf16 "Cześć @Zorya_Bot") None
                       (Some [mkEntity "mention" 6 10]))
            (Some alice) family (Some (utf16 "Zorya_Bot")).

(** A text message that already starts with the trigger. *)
Definition triggered : Context :=
  mkContext (mkMessage 13 1000 (utf16 "@Zorya lunch tomorrow?") None None)
            (Some alice) family (Some (utf16 "Zorya_Bot")).

(** A photo with a caption. *)
Definition photo : Context :=
  mkContext (mkMessage 14 1000 [] (Some "sunset") None)
            (Some alice) family (Some (utf16 "Zorya_Bot")).

(** A text of 5000 letters [é], each one code unit and two bytes of
    UTF-8. *)
Definition long_text : Text := replicate 5000 0xE9%N.

(** The record a refresh of the stale sample record writes, and a runtime
    that reads its text back. *)
Definition refreshed : JSValue := Sample.credentials "new-token" "4600000".

Definition reading_runtime : Runtime := {|
  JSON_parse := λ text, if String.eqb text (Sample.show refreshed) then Some refreshed
                        else obj_lookup text Sample.json_table;
  JSON_stringify := Sample.show;
  Date_parse := Sample.parse_decimal;
  Date_toISOString := pretty;
  StringToNumber := Sample.parse_decimal;
  URLSearchParams_toString := @URLSearchParams_toString Sample.runtime;
  Buffer_byteLength := @Buffer_byteLength Sample.runtime;
  toLocaleDateString := @toLocaleDateString Sample.runtime;
  toLocaleTimeString := @toLocaleTimeString Sample.runtime;
|}.

End MoreSamples.

(** * Properties *)

(** Unfolds the sequencing of effectful code. *)
Ltac unfold_monad :=
  unfold mbind, Effects.St_bind, Effects.Outcome_bind, mret, Effects.St_ret,
    Effects.Outcome_ret, Effects.lift, Effects.throw in *.

(** ** JavaScript objects *)

Section Objects.
Import JS.

Lemma obj_lookup_set_eq k v o : obj_lookup k (obj_set k v o) = Some v.
Proof.
  induction o as [|[k' v'] rest IH]; simpl.
  - by rewrite String.eqb_refl.
  - destruct (String.eqb k k') eqn:E; simpl.
    + by rewrite String.eqb_refl.
    + by rewrite E.
Qed.

Lemma obj_lookup_set_ne k k' v o :
  k ≠ k' → obj_lookup k (obj_set k' v o) = obj_lookup k o.
Proof.
  intros Hne. induction o as [|[k0 v0] rest IH]; simpl.
  - by destruct (String.eqb_spec k k').
  - destruct (String.eqb_spec k' k0) as [->|Hk0]; simpl.
    + by destruct (String.eqb_spec k k0).
    + destruct (String.eqb_spec k k0); [done | apply IH].
Qed.

End Objects.

(** ** The credential manager *)

Section CredentialManager.
Import JS Effects CalendarApproval.
Context {rt : Runtime} {cfg : Config}.

Lemma member_readable v k :
  readable v → member v k = Returned (or_else (member v k) JUndefined).
Proof. intros [??]. by destruct v. Qed.

Lemma member_unreadable v k e : member v k = Thrown e → ¬ readable v.
Proof. intros Hm [??]. by destruct v. Qed.

Lemma getAccessToken_absent w :
  oauth_file w = None →
  getAccessToken w
  = (Thrown (Error ("OAuth credentials not found at " ++ OAUTH_PATH)), w).
Proof.
  intros Hf. unfold getAccessToken, fs_existsSync. unfold_monad. by rewrite Hf.
Qed.

(** How [getAccessToken] goes on once the file holds a readable value:
    the stored token is reused after one clock reading, or the record is
    refreshed, after that reading or, when there is nothing to check,
    without it. *)
Lemma getAccessToken_readable w text creds :
  oauth_file w = Some text →
  JSON_parse text = Some creds →
  readable creds →
  let access_token := or_else (member creds "access_token") JUndefined in
  let token_expiry := or_else (member creds "token_expiry") JUndefined in
  getAccessToken w
  = if truthy access_token && truthy token_expiry then
      if match Date_getTime token_expiry with
         | Some e => bool_decide (clock w (ticks w) < e - EXPIRY_BUFFER_MS)
         | None => false
         end
      then (Returned access_token, tick w)
      else refresh_and_store creds (tick w)
    else refresh_and_store creds w.
Proof.
  intros Hf Hp Hr. simpl.
  unfold getAccessToken, fs_existsSync, fs_readFileSync, parse, Date_now.
  unfold_monad. rewrite Hf. simpl. rewrite Hf, Hp.
  rewrite (member_readable creds "access_token"), (member_readable creds "token_expiry")
    by done.
  destruct (truthy (or_else (member creds "access_token") JUndefined)) eqn:Ha;
    simpl; rewrite ?Ha; [|done].
  destruct (truthy (or_else (member creds "token_expiry") JUndefined)) eqn:Hb;
    simpl; rewrite ?Hb; [|done].
  by destruct (Date_getTime _) as [e|]; [case_bool_decide|].
Qed.

(** When the file holds nothing readable the call throws before any
    effect. *)
Lemma getAccessToken_unreadable w text :
  oauth_file w = Some text →
  (∀ creds, JSON_parse text = Some creds → ¬ readable creds) →
  ∃ e, getAccessToken w = (Thrown e, w).
Proof.
  intros Hf Hn.
  unfold getAccessToken, fs_existsSync, fs_readFileSync, parse. unfold_monad.
  rewrite Hf. simpl. rewrite Hf.
  destruct (JSON_parse text) as [creds|] eqn:Hp; [|eauto].
  specialize (Hn creds eq_refl).
  destruct creds; try (by exfalso; apply Hn); simpl; eauto.
Qed.

(** What [refreshToken] does, by the answer of the token endpoint. *)
Lemma refreshToken_run creds w :
  readable creds →
  refreshToken creds w
  = match network w (sent w) with
    | Rejected reason =>
        (Thrown (NetworkError reason), sending (refresh_request creds) w)
    | Resolved res =>
        if bool_decide (status_code res ≠ 200) then
          (Thrown (Error ("Token refresh failed: "
                          ++ ToString (refresh_error_detail (body res)))),
           sending (refresh_request creds) w)
        else
          match granted (body res) (clock w (ticks w)) with
          | Returned (access_token, expiry) =>
              (Returned (fresh_record access_token expiry),
               tick (sending (refresh_request creds) w))
          | Thrown RangeError =>
              (Thrown RangeError, tick (sending (refresh_request creds) w))
          | Thrown e => (Thrown e, sending (refresh_request creds) w)
          end
    end.
Proof.
  intros Hr.
  unfold refreshToken, refresh_request, httpsRequest, Date_now, granted, parse.
  unfold_monad.
  rewrite (member_readable creds "client_id"), (member_readable creds "client_secret"),
    (member_readable creds "refresh_token") by done.
  simpl. destruct (network w (sent w)) as [res|reason]; [|done].
  case_bool_decide; [done|].
  destruct (JSON_parse (body res)) as [data|]; [|done].
  destruct (member data "access_token") as [tok|[]] eqn:Htok; try done;
    try (by destruct data).
  destruct (member data "expires_in") as [ei|e] eqn:Hei.
  2:{ by destruct (member_unreadable _ _ _ Hei), data. }
  simpl. destruct (ToNumber ei) as [n|]; simpl; [|done].
  by destruct (TimeClip _).
Qed.

(** Every run of lines 91-98 is a refresh in the sense of [Refreshed]. *)
Lemma refresh_and_store_refreshed creds w :
  readable creds →
  Refreshed creds (clock w (ticks w)) w
            (refresh_and_store creds w).1 (refresh_and_store creds w).2.
Proof.
  intros Hr. unfold refresh_and_store. unfold_monad.
  rewrite refreshToken_run by done.
  destruct (network w (sent w)) as [res|reason] eqn:Hnet; simpl.
  2:{ apply Refreshed_failed; by rewrite ?Hnet. }
  case_bool_decide as Hst; simpl.
  { apply Refreshed_failed; rewrite ?Hnet; auto. }
  destruct (granted (body res) (clock w (ticks w))) as [[tok expiry]|e] eqn:Hg; simpl.
  - eapply Refreshed_granted; eauto. simpl. by rewrite <-app_assoc.
  - destruct e; simpl; apply Refreshed_failed; rewrite ?Hnet; eauto.
Qed.


(** A run of [getAccessToken] that sent a request ran lines 91-98 on the
    readable record of the file, after at most one clock reading. *)
Lemma getAccessToken_sent w :
  sent (getAccessToken w).2 ≠ sent w →
  ∃ text creds w0,
    oauth_file w = Some text ∧ JSON_parse text = Some creds ∧ readable creds
    ∧ (w0 = w ∨ w0 = tick w)
    ∧ getAccessToken w = refresh_and_store creds w0.
Proof.
  intros Hsent.
  destruct (oauth_file w) as [text|] eqn:Hf.
  2:{ by rewrite getAccessToken_absent in Hsent. }
  destruct (JSON_parse text) as [creds|] eqn:Hp.
  2:{ destruct (getAccessToken_unreadable w text Hf) as [e He]; [by rewrite Hp|].
      by rewrite He in Hsent. }
  assert (readable creds ∨ ¬ readable creds) as [Hr|Hbad]
    by (destruct creds; first [by left | by right; intros [??]]).
  2:{ destruct (getAccessToken_unreadable w text Hf) as [e He].
      - intros c Hc. by simplify_eq.
      - by rewrite He in Hsent. }
  exists text, creds. pose proof (getAccessToken_readable w text creds Hf Hp Hr) as Hrun.
  simpl in Hrun. rewrite Hrun in Hsent |- *.
  repeat case_match; simplify_eq/=; eauto 10.
Qed.


Lemma spread_fresh_record fields access_token expiry :
  spread (JObj fields) (fresh_record access_token expiry)
  = JObj (obj_set "token_expiry" (JStr (Date_toISOString expiry))
                  (obj_set "access_token" access_token fields)).
Proof. done. Qed.

Lemma Refreshed_writes creds now w o w' :
  Refreshed creds now w o w' →
  match o with
  | Returned access_token =>
      ∃ expiry,
        let content := JSON_stringify (spread creds (fresh_record access_token expiry)) in
        oauth_file w' = Some content ∧ writes (trace w') = (writes (trace w) ++ [content])%list
  | Thrown _ => oauth_file w' = oauth_file w ∧ writes (trace w') = writes (trace w)
  end.
Proof.
  unfold writes. intros [res tok expiry w1 _ _ _ content _ Htr Hf|e w1 _ _ Htr Hf].
  - exists expiry. split; [done|]. rewrite Htr, omap_app. done.
  - split; [done|]. rewrite Htr, omap_app. simpl. by rewrite app_nil_r.
Qed.




(** C10.  When the stored [access_token] or [token_expiry] is missing or
    empty, [getAccessToken] runs the refresh on the record at once, with
    no clock reading before it (the validity check is skipped): the
    request goes to the token endpoint, and the granted token is returned
    after the merged record was written. *)
Theorem getAccessToken_without_token_refreshes w text fields :
  oauth_file w = Some text →
  JSON_parse text = Some (JObj fields) →
  missing_or_empty (obj_lookup "access_token" fields)
  ∨ missing_or_empty (obj_lookup "token_expiry" fields) →
  getAccessToken w = refresh_and_store (JObj fields) w
  ∧ Refreshed (JObj fields) (clock w (ticks w)) w
              (getAccessToken w).1 (getAccessToken w).2.
Proof.
  intros Hf Hp Hmiss.
  assert (readable (JObj fields)) as Hr by done.
  assert (getAccessToken w = refresh_and_store (JObj fields) w) as ->.
  { rewrite (getAccessToken_readable w text _ Hf Hp Hr). simpl.
    destruct Hmiss as [[->| ->]|[->| ->]]; simpl; try done;
      by rewrite andb_false_r. }
  split; [done|]. by apply refresh_and_store_refreshed.
Qed.

(** C6.  When a call of [getAccessToken] on a stored record performs a
    refresh and returns, the file holds the record [{...creds, ...fresh}]:
    [access_token] and [token_expiry] are the new ones, set together, and
    every other property ([refresh_token], [client_id], [client_secret],
    ...) is the stored one; the file was written once, as a whole.  When
    the call throws, the file was not written at all. *)
Theorem refresh_replaces_token_and_expiry_only w text fields :
  oauth_file w = Some text →
  JSON_parse text = Some (JObj fields) →
  let o := (getAccessToken w).1 in
  let w' := (getAccessToken w).2 in
  sent w' ≠ sent w →
  match o with
  | Returned access_token =>
      ∃ expiry updated,
        spread (JObj fields) (fresh_record access_token expiry) = JObj updated
        ∧ oauth_file w' = Some (JSON_stringify (JObj updated))
        ∧ writes (trace w') = (writes (trace w) ++ [JSON_stringify (JObj updated)])%list
        ∧ obj_lookup "access_token" updated = Some access_token
        ∧ obj_lookup "token_expiry" updated = Some (JStr (Date_toISOString expiry))
        ∧ ∀ k, k ≠ "access_token" → k ≠ "token_expiry" →
               obj_lookup k updated = obj_lookup k fields
  | Thrown _ => oauth_file w' = oauth_file w ∧ writes (trace w') = writes (trace w)
  end.
Proof.
  intros Hf Hp o w' Hsent. subst o w'.
  destruct (getAccessToken_sent w Hsent) as (text' & creds & w0 & Hf' & Hp' & Hr & Hw0 & Hrun).
  assert (creds = JObj fields) as -> by congruence.
  rewrite Hrun.
  pose proof (Refreshed_writes _ _ _ _ _ (refresh_and_store_refreshed (JObj fields) w0 Hr)) as Hw.
  assert (oauth_file w0 = oauth_file w ∧ trace w0 = trace w) as [Hf0 Ht0]
    by (by destruct Hw0 as [-> | ->]).
  rewrite Hf0, Ht0 in Hw.
  destruct (refresh_and_store (JObj fields) w0).1 as [tok|e]; [|done].
  destruct Hw as (expiry & Hfile & Hwrites).
  exists expiry. eexists. split; [apply spread_fresh_record|].
  rewrite <-spread_fresh_record. split_and!; [done|done|..].
  - rewrite obj_lookup_set_ne by done. apply obj_lookup_set_eq.
  - apply obj_lookup_set_eq.
  - intros k Hk1 Hk2. by rewrite !obj_lookup_set_ne.
Qed.

(** C7.  [getAccessToken] throws [OAuth credentials not found at ...]
    when the credential file is absent, and whenever its request to the
    token endpoint is answered with a status other than 200 it throws
    [Token refresh failed: detail], where the detail is the
    [error_description] of the response body, else its [error], else the
    raw body (also when the body is not a JSON object). *)
Theorem getAccessToken_failures :
  (∀ w, oauth_file w = None →
        getAccessToken w
        = (Thrown (Error ("OAuth credentials not found at " ++ OAUTH_PATH)), w))
  ∧ (∀ w res,
        sent (getAccessToken w).2 ≠ sent w →
        network w (sent w) = Resolved res →
        status_code res ≠ 200 →
        (getAccessToken w).1
        = Thrown (Error ("Token refresh failed: "
                         ++ ToString (refresh_error_detail (body res)))))
  ∧ (∀ res_body,
        refresh_error_detail res_body
        = match JSON_parse res_body with
          | Some (JObj props) =>
              js_or (default JUndefined (obj_lookup "error_description" props))
                    (js_or (default JUndefined (obj_lookup "error" props))
                           (JStr res_body))
          | _ => JStr res_body
          end).
Proof.
  split_and!.
  - apply getAccessToken_absent.
  - intros w res Hsent Hnet Hst.
    destruct (getAccessToken_sent w Hsent) as (text & creds & w0 & Hf & Hp & Hr & Hw0 & ->).
    unfold refresh_and_store. unfold_monad.
    rewrite refreshToken_run by done.
    assert (network w0 (sent w0) = Resolved res) as -> by (by destruct Hw0 as [-> | ->]).
    by rewrite bool_decide_true.
  - intros res_body. unfold refresh_error_detail, parse, js_or. unfold_monad.
    destruct (JSON_parse res_body) as [[]|]; simpl; try done.
    by repeat case_match.
Qed.

End CredentialManager.

(** ** The calendar write client *)

Section CalendarWriteClient.
Import JS Effects CalendarApproval.
Context {rt : Runtime} {cfg : Config}.


Lemma parseApiError_cases res_body :
  parseApiError res_body
  = match JSON_parse res_body with
    | Some (JObj props) =>
        js_or (or_else (opt_member (default JUndefined (obj_lookup "error" props)) "message")
                       JUndefined)
              (js_or (default JUndefined (obj_lookup "error_description" props))
                     (JStr res_body))
    | _ => JStr res_body
    end.
Proof.
  unfold parseApiError, parse, js_or. unfold_monad.
  destruct (JSON_parse res_body) as [[]|]; simpl; try done.
  destruct (default JUndefined (obj_lookup "error" props)); simpl; try done;
    by repeat case_match.
Qed.

(** C8.  When the create call is answered with a status that is neither
    200 nor 401, [createCalendarEvent] throws [Calendar API error
    <status>: <detail>] right away: the create request is the only one it
    sent after obtaining the token, and nothing was refreshed or retried.
    The detail is the [error.message] of the response body, else its
    [error_description], else the raw body. *)
Theorem createCalendarEvent_api_error proposal w token w1 res :
  getAccessToken w = (Returned token, w1) →
  network w1 (sent w1) = Resolved res →
  status_code res ≠ 200 →
  status_code res ≠ 401 →
  let request := create_request token (JSON_stringify (event_payload proposal)) in
  let detail :=
    match JSON_parse (body res) with
    | Some (JObj props) =>
        js_or (or_else (opt_member (default JUndefined (obj_lookup "error" props)) "message")
                       JUndefined)
              (js_or (default JUndefined (obj_lookup "error_description" props))
                     (JStr (body res)))
    | _ => JStr (body res)
    end in
  createCalendarEvent proposal w
  = (Thrown (Error ("Calendar API error " ++ pretty (status_code res) ++ ": "
                    ++ ToString detail)),
     sending request w1)
  ∧ requests (trace (createCalendarEvent proposal w).2)
    = (requests (trace w1) ++ [request])%list.
Proof.
  intros Htok Hnet H200 H401. simpl.
  assert (createCalendarEvent proposal w
          = (Thrown (api_error res),
             sending (create_request token (JSON_stringify (event_payload proposal))) w1))
    as Hrun.
  { unfold createCalendarEvent, httpsRequest. unfold_monad.
    rewrite Htok, Hnet.
    rewrite bool_decide_false by done. by rewrite bool_decide_true. }
  rewrite Hrun. unfold api_error. rewrite parseApiError_cases. split; [done|].
  simpl. unfold requests. by rewrite omap_app.
Qed.

(** After a 401 the call is repeated once, with whatever token a second
    [getAccessToken] gives; any answer but 200 to the repeated call,
    another 401 included, is thrown as an API error and nothing more is
    sent. *)
Lemma createCalendarEvent_retry_failure proposal w token w1 res token2 w2 res2 :
  let post_body := JSON_stringify (event_payload proposal) in
  getAccessToken w = (Returned token, w1) →
  network w1 (sent w1) = Resolved res →
  status_code res = 401 →
  getAccessToken (sending (create_request token post_body) w1) = (Returned token2, w2) →
  network w2 (sent w2) = Resolved res2 →
  status_code res2 ≠ 200 →
  createCalendarEvent proposal w
  = (Thrown (api_error res2), sending (create_request token2 post_body) w2).
Proof.
  intros post_body Htok Hnet H401 Htok2 Hnet2 H200.
  unfold createCalendarEvent, httpsRequest. unfold_monad.
  rewrite Htok, Hnet. rewrite bool_decide_true by done.
  fold post_body. rewrite Htok2, Hnet2. by rewrite bool_decide_true.
Qed.

(** The second [getAccessToken] of the 401 branch is the ordinary one:
    when the stored token still passes the local check it is handed out
    again, so the repeated call carries the token that was just rejected
    and the token endpoint is never asked. *)
Lemma createCalendarEvent_retry_same_token proposal w text fields token token_expiry expiry res :
  oauth_file w = Some text →
  JSON_parse text = Some (JObj fields) →
  obj_lookup "access_token" fields = Some (JStr token) → token ≠ "" →
  obj_lookup "token_expiry" fields = Some (JStr token_expiry) → token_expiry ≠ "" →
  Date_parse token_expiry = Some expiry →
  EXPIRY_BUFFER_MS < expiry - clock w (ticks w) →
  EXPIRY_BUFFER_MS < expiry - clock w (S (ticks w)) →
  network w (sent w) = Resolved res →
  status_code res = 401 →
  let request := create_request (JStr token) (JSON_stringify (event_payload proposal)) in
  trace (createCalendarEvent proposal w).2 = (trace w ++ [Https request; Https request])%list.
Proof.
  intros Hf Hp Htok Hne Hexp Hne' Hd Hlt1 Hlt2 Hnet H401 request.
  assert (∀ w0, oauth_file w0 = Some text →
                EXPIRY_BUFFER_MS < expiry - clock w0 (ticks w0) →
                getAccessToken w0 = (Returned (JStr token), tick w0)) as Hreuse.
  { intros w0 Hf0 Hlt0.
    rewrite (getAccessToken_readable w0 text (JObj fields) Hf0 Hp) by done. simpl.
    rewrite Htok, Hexp. simpl.
    assert (String.eqb token "" = false) as -> by by apply String.eqb_neq.
    assert (String.eqb token_expiry "" = false) as -> by by apply String.eqb_neq.
    simpl. rewrite Hd. by rewrite bool_decide_true by lia. }
  unfold createCalendarEvent, httpsRequest. unfold_monad.
  rewrite (Hreuse w Hf Hlt1). simpl. rewrite Hnet.
  rewrite bool_decide_true by done.
  rewrite Hreuse by done. simpl.
  fold request.
  destruct (network w (S (sent w))) as [res2|reason]; simpl.
  - case_bool_decide; simpl; by rewrite <-app_assoc.
  - by rewrite <-app_assoc.
Qed.

End CalendarWriteClient.

(** ** The approval channel adapter *)

Section ApprovalChannel.
Import JS Effects Telegram.
Context {rt : Runtime}.

(** C9.  [sendEventProposal] never throws, and the handle it returns
    is the id of the message this very call delivered.  On a connected
    channel the call makes one more API call, the proposal's message with
    its two buttons to the chat of the jid; the result is the id Telegram
    answered that call with, as a string, and [undefined] when Telegram
    rejected it.  On a channel that is not connected nothing is sent and
    the result is [undefined].  In every case the proposal table is left
    as it was, so the proposal keeps its status. *)
Theorem sendEventProposal_handle jid proposal ch :
  let msg := mkOutMessage (strip_tg jid) (proposal_text proposal) "Markdown"
                          (proposal_keyboard proposal) in
  let call := length (outbox ch) in
  let result := (sendEventProposal jid proposal ch).1 in
  let ch' := (sendEventProposal jid proposal ch).2 in
  event_proposals ch' = event_proposals ch
  ∧ connected ch' = connected ch
  ∧ telegram ch' = telegram ch
  ∧ if connected ch then
      outbox ch' = (outbox ch ++ [msg])%list
      ∧ outbox ch' !! call = Some msg
      ∧ result = Returned (match telegram ch' call with
                           | Delivered message_id => Some (pretty message_id)
                           | Failed _ => None
                           end)
    else outbox ch' = outbox ch ∧ result = Returned None.
Proof.
  unfold sendEventProposal, try_catch, api_sendMessage, mbind, St_bind, mret, St_ret.
  destruct (connected ch) eqn:Hc; simpl; [|by rewrite Hc].
  assert (∀ msg : OutMessage, (outbox ch ++ [msg])%list !! length (outbox ch) = Some msg)
    as Hlast by (intros msg; by rewrite lookup_app_r, Nat.sub_diag).
  destruct (telegram ch (length (outbox ch))) eqn:Ht; simpl; rewrite Ht; by split_and!.
Qed.

Lemma split_on_no_sep sep s :
  contains sep s = false → split_on sep s = [s].
Proof.
  induction s as [|c s IH]; simpl; [done|].
  rewrite (Ascii.eqb_sym c sep). destruct (Ascii.eqb sep c); simpl; [done|].
  intros Hs. by rewrite IH.
Qed.

Lemma split_on_app sep s rest :
  contains sep s = false →
  split_on sep (s ++ String sep rest) = s :: split_on sep rest.
Proof.
  induction s as [|c s IH]; simpl.
  - by rewrite Ascii.eqb_refl.
  - rewrite (Ascii.eqb_sym c sep). destruct (Ascii.eqb sep c); simpl; [done|].
    intros Hs. by rewrite IH.
Qed.

(** C4, as amended.  The two buttons carry the payloads
    [event:approve:<id>] and [event:skip:<id>].  The callback handler
    ignores a payload, changing nothing, when the payload does not start
    with [event:] or when the host configured no event callback.  Every
    other payload makes it call the host's callback, once and as its last
    step, with the third and the second colon-separated segment of the
    payload as proposal id and tag; for a payload of the form
    [event:<tag>:<id>] these are that id and that tag, whatever the tag
    is. *)
Theorem proposal_buttons_and_callbacks {W : Type} proposal
    (onEventCallback : option (option string → option string → St W unit))
    (data : string) (w : W) :
  callback_data <$> proposal_keyboard proposal
  = ["event:approve:" ++ id proposal; "event:skip:" ++ id proposal]
  ∧ (startsWith "event:" data = false ∨ onEventCallback = None →
     on_callback_query onEventCallback data w = (Returned (), w))
  ∧ (∀ callback,
        startsWith "event:" data = true →
        onEventCallback = Some callback →
        on_callback_query onEventCallback data w
        = callback (split_on colon data !! 2%nat) (split_on colon data !! 1%nat) w)
  ∧ (∀ callback tag key,
        contains colon tag = false → contains colon key = false →
        on_callback_query (Some callback) ("event:" ++ tag ++ ":" ++ key) w
        = callback (Some key) (Some tag) w).
Proof.
  split_and!; [done|..].
  - unfold on_callback_query, callback_query_args.
    intros [-> | ->]; [done|]. by destruct (startsWith "event:" data).
  - intros callback Hprefix ->. unfold on_callback_query, callback_query_args.
    by rewrite Hprefix.
  - intros callback tag key Htag Hkey. unfold on_callback_query, callback_query_args.
    change (startsWith "event:" ("event:" ++ tag ++ ":" ++ key)) with true.
    change ("event:" ++ tag ++ ":" ++ key)
      with ("event" ++ String colon (tag ++ String colon key)).
    rewrite !split_on_app by done. by rewrite split_on_no_sep.
Qed.

End ApprovalChannel.

(** ** The proposal store *)

Section Store.
Import ProposalStore.

Lemma transition_other key key' from to extra (store : gmap string Stored) :
  key ≠ key' → (transition key' from to extra store).2 !! key = store !! key.
Proof.
  intros Hne. unfold transition.
  destruct (store !! key') as [r|]; [|done].
  case_decide; [|done]. simpl. by rewrite lookup_insert_ne.
Qed.

(** Once the proposal has left [pending], every later caller that expects
    [pending] gets a conflict. *)
Lemma run_resolved key schedule (store : gmap string Stored) r :
  store !! key = Some r →
  status (proposal r) ≠ pending →
  (∀ c, c ∈ schedule → target c = key → expected c = pending) →
  results_for key (run schedule store).1
  = replicate (length (filter (λ c, target c = key) schedule)) Conflict.
Proof.
  revert store. induction schedule as [|c rest IH]; intros store Hr Hst Hcalls; [done|].
  simpl.
  destruct (transition (target c) (expected c) (new_status c) (extra_fields c) store)
    as [result store'] eqn:Ht.
  destruct (run rest store') as [results final] eqn:Hrun.
  assert (store' !! key = Some r ∧ (target c = key → result = Conflict)) as [Hr' Hres].
  { destruct (decide (target c = key)) as [Hk|Hk].
    - unfold transition in Ht. rewrite Hk, Hr in Ht.
      rewrite (Hcalls c) in Ht by (done || apply list_elem_of_here).
      rewrite decide_False in Ht by done. by simplify_eq.
    - split; [|done]. replace store' with (transition (target c) (expected c)
        (new_status c) (extra_fields c) store).2 by by rewrite Ht.
      by rewrite transition_other. }
  specialize (IH store' Hr' Hst).
  rewrite Hrun in IH. unfold results_for in *. cbn [fst] in *. rewrite !filter_cons.
  cbn [fst]. case_decide as Hk.
  - rewrite fmap_cons, IH; [|intros c' Hc'; apply Hcalls; by apply list_elem_of_further].
    cbn [snd]. by rewrite Hres.
  - apply IH. intros c' Hc'. apply Hcalls. by apply list_elem_of_further.
Qed.

(** C2.  Callers race to move the pending proposal [key] out of
    [pending]; the store takes their calls, and any calls on other
    proposals, one at a time in some order.  Whatever the order, the
    callers on [key] get exactly one [Success] (the first call the store
    takes) and a [Conflict] each for all the others. *)
Theorem transition_race key schedule (store : gmap string Stored) r :
  store !! key = Some r →
  status (proposal r) = pending →
  (∀ c, c ∈ schedule → target c = key →
        expected c = pending ∧ new_status c ≠ pending) →
  (∃ c, c ∈ schedule ∧ target c = key) →
  ∃ n, results_for key (run schedule store).1 = Success :: replicate n Conflict
       ∧ length (filter (λ c, target c = key) schedule) = S n.
Proof.
  revert store. induction schedule as [|c rest IH]; intros store Hr Hst Hcalls Hsome.
  { destruct Hsome as (c & Hc & _). by apply elem_of_nil in Hc. }
  simpl.
  destruct (transition (target c) (expected c) (new_status c) (extra_fields c) store)
    as [result store'] eqn:Ht.
  destruct (run rest store') as [results final] eqn:Hrun.
  unfold results_for. cbn [fst]. rewrite !filter_cons. cbn [fst].
  destruct (decide (target c = key)) as [Hk|Hk].
  - destruct (Hcalls c (list_elem_of_here _ _) Hk) as [Hexp Hnew].
    unfold transition in Ht. rewrite Hk, Hr, Hexp in Ht.
    rewrite decide_True in Ht by done. injection Ht as <- <-.
    exists (length (filter (λ c, target c = key) rest)).
    split; [|done]. rewrite fmap_cons. cbn [snd]. f_equal.
    set (r' := mkStored (with_status (new_status c) (proposal r))
                        (from_option Some (external r) (extra_fields c))) in *.
    pose proof (run_resolved key rest (<[key := r']> store) r'
                  (lookup_insert_eq _ _ _)) as Hres.
    rewrite Hrun in Hres. apply Hres; [done|].
    intros c' Hc' Hk'. apply Hcalls; [by apply list_elem_of_further|done].
  - assert (store' !! key = Some r) as Hr'.
    { replace store' with (transition (target c) (expected c)
        (new_status c) (extra_fields c) store).2 by by rewrite Ht.
      by rewrite transition_other. }
    destruct (IH store' Hr' Hst) as (n & Hn & Hlen).
    + intros c' Hc'. apply Hcalls. by apply list_elem_of_further.
    + destruct Hsome as (c' & Hc' & Hk'). exists c'. split; [|done].
      apply elem_of_cons in Hc' as [->|]; done.
    + rewrite Hrun in Hn. exists n. done.
Qed.

End Store.

(** ** The properties on the sample data *)

Section Examples.
Import JS Effects CalendarApproval.

Local Existing Instance Sample.runtime.
Local Existing Instance Sample.config.



(** C10 on the sample record without a token. *)
Lemma getAccessToken_without_token_refreshes_witness :
  let w := Sample.world (Some "oauth-no-token.json")
                        (Sample.answers [mkResponse 200 "token-granted"]) in
  getAccessToken w = refresh_and_store (Sample.credentials "" "2000000") w
  ∧ Refreshed (Sample.credentials "" "2000000") (clock w (ticks w)) w
              (getAccessToken w).1 (getAccessToken w).2.
Proof.
  intros w.
  apply (getAccessToken_without_token_refreshes
           w "oauth-no-token.json" (Sample.credential_fields "" "2000000"));
    [reflexivity | reflexivity |].
  left. right. reflexivity.
Defined.

(** C6 on the sample record whose token has expired. *)
Lemma refresh_replaces_token_and_expiry_only_witness :
  let w := Sample.world (Some "oauth-stale.json")
                        (Sample.answers [mkResponse 200 "token-granted"]) in
  let fields := Sample.credential_fields "stored-token" "1000" in
  match (getAccessToken w).1 with
  | Returned access_token =>
      ∃ expiry updated,
        spread (JObj fields) (fresh_record access_token expiry) = JObj updated
        ∧ oauth_file (getAccessToken w).2 = Some (JSON_stringify (JObj updated))
        ∧ writes (trace (getAccessToken w).2)
          = (writes (trace w) ++ [JSON_stringify (JObj updated)])%list
        ∧ obj_lookup "access_token" updated = Some access_token
        ∧ obj_lookup "token_expiry" updated = Some (JStr (Date_toISOString expiry))
        ∧ ∀ k, k ≠ "access_token" → k ≠ "token_expiry" →
               obj_lookup k updated = obj_lookup k fields
  | Thrown _ =>
      oauth_file (getAccessToken w).2 = oauth_file w
      ∧ writes (trace (getAccessToken w).2) = writes (trace w)
  end.
Proof.
  intros w fields.
  apply (refresh_replaces_token_and_expiry_only w "oauth-stale.json" fields);
    [reflexivity | reflexivity |].
  vm_compute. discriminate.
Defined.

(** C7 on a world without the file and on a refused refresh. *)
Lemma getAccessToken_failures_witness :
  let w := Sample.world (Some "oauth-stale.json")
                        (Sample.answers [mkResponse 400 "token-denied"]) in
  getAccessToken (Sample.world None (Sample.answers []))
  = (Thrown (Error ("OAuth credentials not found at " ++ OAUTH_PATH)),
     Sample.world None (Sample.answers []))
  ∧ (getAccessToken w).1
    = Thrown (Error ("Token refresh failed: "
                     ++ ToString (refresh_error_detail "token-denied"))).
Proof.
  intros w. split.
  - apply (proj1 getAccessToken_failures). reflexivity.
  - apply (proj1 (proj2 getAccessToken_failures) w (mkResponse 400 "token-denied")).
    + vm_compute. discriminate.
    + reflexivity.
    + vm_compute. discriminate.
Defined.

(** C8 on a create call answered with 403. *)
Lemma createCalendarEvent_api_error_witness :
  let w := Sample.world (Some "oauth.json") (Sample.answers [mkResponse 403 "quota"]) in
  (createCalendarEvent Sample.coffee w).1
  = Thrown (Error "Calendar API error 403: Rate Limit Exceeded")
  ∧ requests (trace (createCalendarEvent Sample.coffee w).2)
    = [create_request (JStr "stored-token") (JSON_stringify (event_payload Sample.coffee))].
Proof.
  intros w.
  destruct (createCalendarEvent_api_error
              Sample.coffee w (JStr "stored-token") (tick w) (mkResponse 403 "quota"))
    as [Hrun Hreq].
  - reflexivity.
  - reflexivity.
  - vm_compute. discriminate.
  - vm_compute. discriminate.
  - split; [by rewrite Hrun | exact Hreq].
Defined.

(** C1, the code on a failing input.  The stored token passes the local
    validity check, the calendar API rejects it with 401 twice; the
    repeated call carries the very token that was rejected, and no
    request ever goes to the token endpoint: no refresh is forced. *)
Theorem createCalendarEvent_retry_reuses_rejected_token :
  let w := Sample.world (Some "oauth.json")
                        (Sample.answers [mkResponse 401 "unauthorized";
                                         mkResponse 401 "unauthorized"]) in
  let request := create_request (JStr "stored-token")
                                (JSON_stringify (event_payload Sample.coffee)) in
  (createCalendarEvent Sample.coffee w).1
  = Thrown (Error "Calendar API error 401: Invalid Credentials")
  ∧ requests (trace (createCalendarEvent Sample.coffee w).2) = [request; request]
  ∧ hostname request = "www.googleapis.com"
  ∧ writes (trace (createCalendarEvent Sample.coffee w).2) = [].
Proof. by vm_compute. Qed.

End Examples.

Section ChannelExamples.
Import JS Effects Telegram.

Local Existing Instance Sample.runtime.

(** C4, counterexample to the statement of the specification.  The second button of a
    rendered proposal carries the tag [skip], which is not one of
    [approve] and [reject]; and an inbound payload with a tag outside
    that set, here [snooze], is not dropped: the host callback is called
    with it and changes its state. *)
Lemma skip_and_unknown_tags_reach_the_callback :
  callback_data <$> proposal_keyboard Sample.coffee
  = ["event:approve:prop-1"; "event:skip:prop-1"]
  ∧ ("skip" ∉ ["approve"; "reject"])
  ∧ ("snooze" ∉ ["approve"; "reject"])
  ∧ on_callback_query (Some Sample.record_call) "event:snooze:prop-1" []
    = (Returned (), [(Some "prop-1", Some "snooze")])
  ∧ on_callback_query (Some Sample.record_call) "event:snooze:prop-1" []
    ≠ (Returned (), []).
Proof.
  split_and!; [done| | |done|done];
    rewrite !elem_of_cons, elem_of_nil; by intros [|[|]].
Qed.

(** C4 on the payload of the second button, and on a payload that is
    not an event. *)
Lemma proposal_buttons_and_callbacks_witness :
  on_callback_query (Some Sample.record_call) ("event:" ++ "skip" ++ ":" ++ "prop-1") []
  = Sample.record_call (Some "prop-1") (Some "skip") []
  ∧ on_callback_query (Some Sample.record_call) "verbose:on" [] = (Returned (), []).
Proof.
  split.
  - apply (proj2 (proj2 (proj2 (proposal_buttons_and_callbacks Sample.coffee None "" []))));
      reflexivity.
  - apply (proj1 (proj2 (proposal_buttons_and_callbacks
                           Sample.coffee (Some Sample.record_call) "verbose:on" []))).
    left. reflexivity.
Defined.

End ChannelExamples.

Section StoreExamples.
Import ProposalStore.

(** C2 on the sample schedule: three callers on [prop-1]. *)
Lemma transition_race_witness :
  ∃ n, results_for "prop-1" (run Sample.schedule Sample.store).1
       = Success :: replicate n Conflict
       ∧ length (filter (λ c, target c = "prop-1") Sample.schedule) = S n.
Proof.
  apply (transition_race "prop-1" Sample.schedule Sample.store
                         (mkStored Sample.coffee None)).
  - reflexivity.
  - reflexivity.
  - intros c Hc Hk.
    repeat (apply elem_of_cons in Hc as [->|Hc]; [split; [reflexivity|discriminate]|]).
    by apply elem_of_nil in Hc.
  - exists (mkCall "prop-1" pending rejected None). split; [|reflexivity].
    apply list_elem_of_further, list_elem_of_further, list_elem_of_here.
Defined.

End StoreExamples.

(** ** Texts and their bytes *)

Section CodeUnits.
Import UTF16.

Lemma read_points_bytes c rest :
  (c < 0x110000)%N → read_points (utf8_bytes c ++ rest) = c :: read_points rest.
Proof.
  intros Hc. unfold utf8_bytes.
  pose proof (N.div_mod c 0x40 ltac:(done)) as Hd1.
  pose proof (N.mod_lt c 0x40 ltac:(done)) as Hm1.
  pose proof (N.div_mod (c / 0x40) 0x40 ltac:(done)) as Hd2.
  pose proof (N.mod_lt (c / 0x40) 0x40 ltac:(done)) as Hm2.
  pose proof (N.div_mod (c / 0x1000) 0x40 ltac:(done)) as Hd3.
  pose proof (N.mod_lt (c / 0x1000) 0x40 ltac:(done)) as Hm3.
  replace (c / 0x40 / 0x40)%N with (c / 0x1000)%N in Hd2 by (by rewrite N.Div0.div_div).
  replace (c / 0x1000 / 0x40)%N with (c / 0x40000)%N in Hd3 by (by rewrite N.Div0.div_div).
  set (q1 := (c / 0x40)%N) in *. set (r1 := (c mod 0x40)%N) in *.
  set (r2 := (q1 mod 0x40)%N) in *.
  set (q2 := (c / 0x1000)%N) in *. set (r3 := (q2 mod 0x40)%N) in *.
  set (q3 := (c / 0x40000)%N) in *.
  clearbody q1 r1 r2 q2 r3 q3.
  destruct (N.ltb_spec c 0x80); cbn [app read_points].
  { destruct (N.ltb_spec c 0x80); [done|lia]. }
  destruct (N.ltb_spec c 0x800); cbn [app read_points].
  { destruct (N.ltb_spec (0xC0 + q1) 0x80); [lia|].
    destruct (N.ltb_spec (0xC0 + q1) 0xE0); [|lia].
    f_equal. lia. }
  destruct (N.ltb_spec c 0x10000); cbn [app read_points].
  { destruct (N.ltb_spec (0xE0 + q2) 0x80); [lia|].
    destruct (N.ltb_spec (0xE0 + q2) 0xE0); [lia|].
    destruct (N.ltb_spec (0xE0 + q2) 0xF0); [|lia].
    f_equal. lia. }
  destruct (N.ltb_spec (0xF0 + q3) 0x80); [lia|].
  destruct (N.ltb_spec (0xF0 + q3) 0xE0); [lia|].
  destruct (N.ltb_spec (0xF0 + q3) 0xF0); [lia|].
  f_equal. lia.
Qed.

Lemma utf8_bytes_byte c : (c < 0x110000)%N → Forall (λ b, (b < 256)%N) (utf8_bytes c).
Proof.
  intros Hc. unfold utf8_bytes.
  pose proof (N.mod_lt c 0x40 ltac:(done)) as Hm1.
  pose proof (N.mod_lt (c / 0x40) 0x40 ltac:(done)) as Hm2.
  pose proof (N.mod_lt (c / 0x1000) 0x40 ltac:(done)) as Hm3.
  pose proof (N.Div0.div_lt_upper_bound c 0x40 0x20) as Hq1.
  pose proof (N.Div0.div_lt_upper_bound c 0x1000 0x10) as Hq2.
  pose proof (N.Div0.div_lt_upper_bound c 0x40000 0x8) as Hq3.
  set (q1 := (c / 0x40)%N) in *. set (r1 := (c mod 0x40)%N) in *.
  set (r2 := (q1 mod 0x40)%N) in *.
  set (q2 := (c / 0x1000)%N) in *. set (r3 := (q2 mod 0x40)%N) in *.
  set (q3 := (c / 0x40000)%N) in *.
  clearbody q1 r1 r2 q2 r3 q3.
  destruct (N.ltb_spec c 0x80); [repeat constructor; lia|].
  destruct (N.ltb_spec c 0x800); [repeat constructor; lia|].
  destruct (N.ltb_spec c 0x10000); repeat constructor; lia.
Qed.

Lemma pair_point u v c :
  is_lead u && is_trail v = true →
  c = (0x10000 + (u - 0xD800) * 0x400 + (v - 0xDC00))%N →
  (c < 0x110000)%N ∧ units_of_point c = [u; v].
Proof.
  unfold is_lead, is_trail. rewrite !andb_true_iff, !N.leb_le. intros [[? ?] [? ?]] Hc.
  split; [lia|]. unfold units_of_point.
  destruct (N.ltb_spec c 0x10000); [lia|].
  assert (c - 0x10000 = (v - 0xDC00) + (u - 0xD800) * 0x400)%N as -> by lia.
  rewrite N.div_add by done. rewrite N.Div0.mod_add.
  rewrite N.div_small, N.mod_small by lia. f_equal; [lia | f_equal; lia].
Qed.

Lemma single_point u : (u < 0x10000)%N → (u < 0x110000)%N ∧ units_of_point u = [u].
Proof.
  intros Hu. split; [lia|]. unfold units_of_point.
  by destruct (N.ltb_spec u 0x10000); [|lia].
Qed.

Lemma code_points_back n (s : Text) :
  (length s ≤ n)%nat →
  Forall (λ u, (u < 0x10000)%N) s →
  Forall (λ b, (b < 256)%N) (code_points s ≫= utf8_bytes)
  ∧ read_points (code_points s ≫= utf8_bytes) ≫= units_of_point = s.
Proof.
  revert s. induction n as [|n IH]; intros s Hlen Hs.
  { destruct s; [done | simpl in Hlen; lia]. }
  assert (∀ c (first rest : Text),
            (c < 0x110000)%N → units_of_point c = first →
            (length rest ≤ n)%nat → Forall (λ u, (u < 0x10000)%N) rest →
            Forall (λ b, (b < 256)%N) ((c :: code_points rest) ≫= utf8_bytes)
            ∧ read_points ((c :: code_points rest) ≫= utf8_bytes) ≫= units_of_point
              = (first ++ rest)%list) as Hstep.
  { intros c first rest Hc Hunits Hrest Hall.
    destruct (IH rest Hrest Hall) as [Hbytes Hback].
    rewrite bind_cons. split.
    - apply Forall_app. split; [by apply utf8_bytes_byte | done].
    - by rewrite read_points_bytes, bind_cons, Hunits, Hback. }
  destruct s as [|u [|v rest]]; [done|..].
  - apply Forall_cons in Hs as [Hu _]. destruct (single_point u Hu) as [Hc Hunits].
    apply (Hstep u [u] []); [done | done | simpl; lia | done].
  - apply Forall_cons in Hs as [Hu Hs]. cbn [code_points].
    destruct (is_lead u && is_trail v) eqn:Hpair.
    + apply Forall_cons in Hs as [Hv Hs].
      destruct (pair_point u v _ Hpair eq_refl) as [Hc Hunits].
      apply (Hstep _ [u; v] rest); [done | done | simpl in Hlen; lia | done].
    + destruct (single_point u Hu) as [Hc Hunits].
      apply (Hstep u [u] (v :: rest)); [done | done | simpl in Hlen |- *; lia | done].
Qed.

Lemma bytes_back (bytes : list N) :
  Forall (λ b, (b < 256)%N) bytes →
  Ascii.N_of_ascii <$> (Ascii.ascii_of_N <$> bytes) = bytes.
Proof.
  induction 1 as [|b bytes Hb _ IH]; [done|].
  rewrite !fmap_cons, IH. f_equal. by apply Ascii.N_ascii_embedding.
Qed.

(** Reading the bytes of a text back gives the text. *)
Lemma utf16_utf8 (s : Text) : code_units s → utf16 (utf8 s) = s.
Proof.
  intros Hs. destruct (code_points_back (length s) s) as [Hbytes Hback]; [done..|].
  unfold utf16, utf8. rewrite String.list_ascii_of_string_of_list_ascii.
  by rewrite bytes_back.
Qed.

(** No two texts are written as the same bytes. *)
Lemma utf8_inj (s t : Text) : code_units s → code_units t → utf8 s = utf8 t → s = t.
Proof. intros Hs Ht Heq. by rewrite <-(utf16_utf8 s), <-(utf16_utf8 t), Heq. Qed.

End CodeUnits.

(** ** Outbound messages of the channel *)

Section OutboundMessages.
Import JS Effects Telegram UTF16 TelegramChannel.

Lemma append_empty_r (s : string) : s ++ "" = s.
Proof.
  induction s as [|c s IH]; [done|].
  change (String c (s ++ "") = String c s). by rewrite IH.
Qed.

Lemma substring_all s : String.substring 0 (String.length s) s = s.
Proof. induction s as [|c s IH]; simpl; [done | by rewrite IH]. Qed.

Lemma slice_step j m (s : Text) : slice j (j + m) s = take m (drop j s).
Proof. unfold slice. f_equal. lia. Qed.

Lemma slice_step_length j m (s : Text) :
  length (slice j (j + m) s) = (m `min` (length s - j))%nat.
Proof. by rewrite slice_step, length_take, length_drop. Qed.

(** The slices of the loop, put together, are the text from the first
    index on, once the loop is given iterations enough to end. *)
Lemma loop_slices_concat step fuel i (s : Text) :
  (0 < step)%nat →
  (length s - i ≤ fuel)%nat →
  concat ((λ j, slice j (j + step) s) <$> loop_indices step fuel i (length s))
  = drop i s.
Proof.
  intros Hstep. revert i. induction fuel as [|fuel IH]; intros i Hfuel; simpl.
  - rewrite drop_ge by lia. done.
  - destruct (Nat.ltb_spec i (length s)) as [Hlt|Hge].
    2:{ by rewrite drop_ge. }
    rewrite fmap_cons. simpl. rewrite slice_step, IH by lia.
    replace (drop (i + step) s) with (drop step (drop i s))
      by (rewrite drop_drop; f_equal; lia).
    apply take_drop.
Qed.

Lemma loop_indices_bound step fuel i n j :
  j ∈ loop_indices step fuel i n → (j < n)%nat.
Proof.
  revert i. induction fuel as [|fuel IH]; intros i; simpl.
  - by intros ?%elem_of_nil.
  - destruct (Nat.ltb_spec i n); [|by intros ?%elem_of_nil].
    intros [->|?]%elem_of_cons; [done | by eapply IH].
Qed.

(** The loop visits the multiples of its step. *)
Lemma loop_indices_lookup step fuel i n k j :
  loop_indices step fuel i n !! k = Some j → j = (i + k * step)%nat.
Proof.
  revert i k. induction fuel as [|fuel IH]; intros i k; simpl; [done|].
  destruct (Nat.ltb_spec i n); [|done].
  destruct k as [|k]; simpl.
  - intros [= <-]. lia.
  - intros Hk%IH. lia.
Qed.

Lemma MAX_LENGTH_pos : (0 < MAX_LENGTH)%nat.
Proof. unfold MAX_LENGTH. lia. Qed.

(** X1.  The chunks [sendMessage] cuts a text into are a partition of
    it: put together in order they give the text back, nothing lost and
    nothing repeated.  Chunk number [k] is the 4096 code units of the text
    from position [4096 k] on, or what is left of them, so no chunk is
    longer than 4096 code units and every chunk but the last is exactly
    that long.  There is always at least one chunk (an empty text is sent
    as one empty chunk), and the chunks of a non-empty text are
    non-empty.  Lengths count UTF-16 code units, as [text.length] does. *)
Theorem message_chunks_partition (text : Text) :
  concat (message_chunks text) = text
  ∧ Forall (λ chunk, (length chunk ≤ MAX_LENGTH)%nat) (message_chunks text)
  ∧ message_chunks text ≠ []
  ∧ (text ≠ [] → Forall (λ chunk, chunk ≠ []) (message_chunks text))
  ∧ (∀ k chunk,
        message_chunks text !! k = Some chunk →
        chunk = take MAX_LENGTH (drop (k * MAX_LENGTH) text)
        ∧ (is_Some (message_chunks text !! S k) → length chunk = MAX_LENGTH)).
Proof.
  unfold message_chunks.
  destruct (Nat.leb_spec (length text) MAX_LENGTH) as [Hle|Hgt].
  { split_and!; [apply app_nil_r | by apply Forall_singleton | done | |].
    - intros Hne. by apply Forall_singleton.
    - intros [|k] chunk; [|done]. intros [= <-]. split.
      + by rewrite Nat.mul_0_l, drop_0, take_ge.
      + by intros [? ?]. }
  pose proof MAX_LENGTH_pos as Hpos.
  split_and!.
  - by rewrite loop_slices_concat by lia.
  - apply Forall_fmap, Forall_forall. intros j _. simpl.
    rewrite slice_step_length. lia.
  - revert Hgt. generalize (length text). intros [|n] Hgt; [lia|]. done.
  - intros _. apply Forall_fmap, Forall_forall. intros j Hj%loop_indices_bound.
    simpl. intros Hempty. apply (f_equal length) in Hempty.
    rewrite slice_step_length in Hempty.
    change (length (@nil CodeUnit)) with 0%nat in Hempty. lia.
  - intros k chunk. rewrite !list_lookup_fmap.
    destruct (loop_indices _ _ _ _ !! k) as [j|] eqn:Hj; [|done].
    intros [= <-]. apply loop_indices_lookup in Hj as Hjk. subst j.
    rewrite Nat.add_0_l. split; [apply slice_step|].
    destruct (loop_indices _ _ _ _ !! S k) as [j'|] eqn:Hj'; [|by intros [? ?]].
    intros _. apply loop_indices_lookup in Hj' as Hjk'.
    apply list_elem_of_lookup_2, loop_indices_bound in Hj'.
    rewrite slice_step_length. rewrite Nat.mul_succ_l in Hjk'. lia.
Qed.

Lemma sendChunk_run numericId chunk ch :
  sendChunk numericId chunk ch
  = match telegram ch (length (outbox ch)) with
    | Delivered _ => (Returned (), called (markdown_message numericId chunk) ch)
    | Failed _ =>
        let ch' := called (plain_message numericId chunk)
                          (called (markdown_message numericId chunk) ch) in
        match telegram ch (S (length (outbox ch))) with
        | Delivered _ => (Returned (), ch')
        | Failed reason => (Thrown (NetworkError reason), ch')
        end
    end.
Proof.
  unfold sendChunk, try_catch, api_sendMessage, mbind, St_bind, mret, St_ret.
  destruct (telegram ch (length (outbox ch))); simpl; [done|].
  rewrite length_app. simpl. rewrite Nat.add_1_r.
  by destruct (telegram ch (S (length (outbox ch)))).
Qed.

Lemma carries_here numericId chunk rest msg :
  msg = markdown_message numericId chunk ∨ msg = plain_message numericId chunk →
  carries numericId (chunk :: rest) msg.
Proof. intros Hmsg. exists chunk. split; [apply list_elem_of_here | done]. Qed.

Lemma carries_further numericId chunk rest msg :
  carries numericId rest msg → carries numericId (chunk :: rest) msg.
Proof. intros (c & Hc & Hmsg). exists c. split; [by apply list_elem_of_further | done]. Qed.

(** What the loop over the chunks keeps: only the outbox grows, by calls
    that carry chunks to the one chat, two at most per chunk. *)
Lemma send_chunks_inv numericId chunks ch :
  connected (send_chunks numericId chunks ch).2 = connected ch
  ∧ telegram (send_chunks numericId chunks ch).2 = telegram ch
  ∧ event_proposals (send_chunks numericId chunks ch).2 = event_proposals ch
  ∧ ∃ new, outbox (send_chunks numericId chunks ch).2 = (outbox ch ++ new)%list
           ∧ (length new ≤ 2 * length chunks)%nat
           ∧ Forall (carries numericId chunks) new.
Proof.
  revert ch. induction chunks as [|chunk rest IH]; intros ch.
  { split_and!; [done..|]. exists []. by rewrite app_nil_r. }
  change (send_chunks numericId (chunk :: rest) ch)
    with (match sendChunk numericId chunk ch with
          | (Returned _, ch1) => send_chunks numericId rest ch1
          | (Thrown e, ch1) => (Thrown e, ch1)
          end).
  rewrite sendChunk_run.
  set (md := markdown_message numericId chunk).
  set (plain := plain_message numericId chunk).
  assert (carries numericId (chunk :: rest) md) as Hmd by (apply carries_here; by left).
  assert (carries numericId (chunk :: rest) plain) as Hplain
    by (apply carries_here; by right).
  destruct (telegram ch (length (outbox ch))).
  - destruct (IH (called md ch)) as (Hc & Ht & He & new & Ho & Hlen & Hnew).
    split_and!; [done..|]. exists (md :: new). split_and!.
    + rewrite Ho. simpl. by rewrite <-app_assoc.
    + simpl in *. lia.
    + apply Forall_cons. split; [done|].
      eapply Forall_impl; [done|]. intros msg. apply carries_further.
  - cbv zeta. destruct (telegram ch (S (length (outbox ch)))).
    + destruct (IH (called plain (called md ch))) as (Hc & Ht & He & new & Ho & Hlen & Hnew).
      split_and!; [done..|]. exists (md :: plain :: new). split_and!.
      * rewrite Ho. simpl. by rewrite <-!app_assoc.
      * simpl in *. lia.
      * repeat (apply Forall_cons; split; [done|]).
        eapply Forall_impl; [done|]. intros msg. apply carries_further.
    + split_and!; [done..|]. exists [md; plain]. split_and!.
      * simpl. by rewrite <-!app_assoc.
      * simpl. lia.
      * by repeat (apply Forall_cons; split; [done|]).
Qed.

Lemma sendMessage_run jid text ch :
  connected ch = true →
  sendMessage jid text ch
  = (Returned (), (send_chunks (strip_tg jid) (message_chunks text) ch).2).
Proof.
  intros Hc. unfold sendMessage, try_catch. rewrite Hc. simpl.
  by destruct (send_chunks _ _ ch) as [[[]|e] ch'].
Qed.

(** X2.  [sendMessage] never throws, whatever the Telegram API answers.
    It changes nothing but the list of calls made, and every call it
    makes goes to the chat of the jid (its [tg:] prefix removed), carries
    one of the chunks of the text, in Markdown mode or as plain text, and
    no keyboard; there are at most two calls per chunk, and none at all
    when the channel is not connected. *)
Theorem sendMessage_sends_only_chunks jid text ch :
  (sendMessage jid text ch).1 = Returned ()
  ∧ connected (sendMessage jid text ch).2 = connected ch
  ∧ event_proposals (sendMessage jid text ch).2 = event_proposals ch
  ∧ ∃ new,
      outbox (sendMessage jid text ch).2 = (outbox ch ++ new)%list
      ∧ (length new ≤ 2 * length (message_chunks text))%nat
      ∧ Forall (λ msg, ∃ chunk,
                  chunk ∈ message_chunks text
                  ∧ chat_id msg = strip_tg jid
                  ∧ Telegram.text msg = utf8 chunk
                  ∧ (parse_mode msg = "Markdown" ∨ parse_mode msg = "")
                  ∧ reply_markup msg = []) new
      ∧ (connected ch = false → new = []).
Proof.
  destruct (connected ch) eqn:Hc.
  - rewrite sendMessage_run by done. simpl.
    destruct (send_chunks_inv (strip_tg jid) (message_chunks text) ch)
      as (Hc' & _ & He & new & Ho & Hlen & Hall).
    split_and!; [done | congruence | done |]. exists new.
    split_and!; [done | done | | done].
    eapply Forall_impl; [done|]. intros msg (chunk & Hin & [-> | ->]);
      exists chunk; split_and!; auto.
  - unfold sendMessage. rewrite Hc. simpl. split_and!; [done..|].
    exists []. split_and!; [by rewrite app_nil_r | simpl; lia | done | done].
Qed.

Lemma send_chunks_delivered numericId chunks ch :
  (∀ k, (k < length chunks)%nat →
        ∃ message_id, telegram ch (length (outbox ch) + k) = Delivered message_id) →
  send_chunks numericId chunks ch
  = (Returned (),
     mkChannel (connected ch) (telegram ch)
               (outbox ch ++ (markdown_message numericId <$> chunks))
               (event_proposals ch)).
Proof.
  revert ch. induction chunks as [|chunk rest IH]; intros ch Hall.
  { simpl. rewrite app_nil_r. by destruct ch. }
  change (send_chunks numericId (chunk :: rest) ch)
    with (match sendChunk numericId chunk ch with
          | (Returned _, ch1) => send_chunks numericId rest ch1
          | (Thrown e, ch1) => (Thrown e, ch1)
          end).
  rewrite sendChunk_run.
  destruct (Hall 0%nat) as [mid Hmid]; [simpl; lia|].
  rewrite Nat.add_0_r in Hmid. rewrite Hmid.
  rewrite IH.
  - simpl. by rewrite <-app_assoc.
  - intros k Hk. destruct (Hall (S k)) as [mid' Hmid']; [simpl; lia|].
    exists mid'. simpl. rewrite length_app. simpl.
    by replace (length (outbox ch) + 1 + k)%nat with (length (outbox ch) + S k)%nat by lia.
Qed.

(** X3.  When the channel is connected and Telegram accepts every call,
    [sendMessage] makes exactly one call per chunk, in the order of the
    text, each in Markdown mode to the chat of the jid. *)
Theorem sendMessage_delivers_in_order jid text ch :
  connected ch = true →
  (∀ k, (k < length (message_chunks text))%nat →
        ∃ message_id, telegram ch (length (outbox ch) + k) = Delivered message_id) →
  outbox (sendMessage jid text ch).2
  = (outbox ch ++ (markdown_message (strip_tg jid) <$> message_chunks text))%list.
Proof.
  intros Hc Hall. rewrite sendMessage_run by done. simpl.
  by rewrite send_chunks_delivered.
Qed.

(** X4.  When Telegram rejects the Markdown call for the first chunk, the
    same chunk is sent again as plain text.  If that call is accepted the
    loop goes on with the chunks that follow; if it is rejected too,
    nothing more is sent, so the rest of the text is dropped, and
    [sendMessage] still returns normally. *)
Theorem sendMessage_plain_text_fallback jid text ch chunk others reason :
  connected ch = true →
  message_chunks text = chunk :: others →
  telegram ch (length (outbox ch)) = Failed reason →
  let numericId := strip_tg jid in
  let ch' := called (plain_message numericId chunk)
                    (called (markdown_message numericId chunk) ch) in
  (sendMessage jid text ch).1 = Returned ()
  ∧ (sendMessage jid text ch).2
    = match telegram ch (S (length (outbox ch))) with
      | Delivered _ => (send_chunks numericId others ch').2
      | Failed _ => ch'
      end.
Proof.
  intros Hc Hchunks Hfail numericId ch'.
  rewrite sendMessage_run by done. split; [done|]. simpl. rewrite Hchunks.
  change (send_chunks (strip_tg jid) (chunk :: others) ch)
    with (match sendChunk numericId chunk ch with
          | (Returned _, ch1) => send_chunks numericId others ch1
          | (Thrown e, ch1) => (Thrown e, ch1)
          end).
  rewrite sendChunk_run, Hfail. cbv zeta.
  by destruct (telegram ch (S (length (outbox ch)))).
Qed.

(** X5.  A connected channel answers [sendEventProposal] with exactly one
    [sendMessage] call, delivered or not: the text of the proposal in
    Markdown mode with the two buttons, to the chat of the jid.  There is
    no second attempt and no plain-text fallback; a channel that is not
    connected makes no call. *)
Theorem sendEventProposal_sends_once `{rt : Runtime} jid proposal ch :
  (sendEventProposal jid proposal ch).2
  = if connected ch
    then called (mkOutMessage (strip_tg jid) (proposal_text proposal) "Markdown"
                              (proposal_keyboard proposal)) ch
    else ch.
Proof.
  unfold sendEventProposal, try_catch, api_sendMessage, mbind, St_bind, mret, St_ret.
  destruct (connected ch) eqn:Hc; simpl; [|done].
  destruct (telegram ch (length (outbox ch))); simpl; unfold called; by rewrite Hc.
Qed.

Lemma strip_tg_prefixed numericId : strip_tg ("tg:" ++ numericId) = numericId.
Proof.
  unfold strip_tg.
  change (startsWith "tg:" ("tg:" ++ numericId)) with true. cbv iota.
  change (String.length ("tg:" ++ numericId)) with (S (S (S (String.length numericId)))).
  replace (S (S (S (String.length numericId))) - 3)%nat
    with (String.length numericId) by lia.
  change (String.substring 3 (String.length numericId) ("tg:" ++ numericId))
    with (String.substring 0 (String.length numericId) numericId).
  apply substring_all.
Qed.

(** X6.  Jids and chat ids convert back and forth: [tg:] followed by a
    chat id is a jid the channel owns, and removing the prefix as the
    send methods do gives the chat id back; a jid the channel owns is
    [tg:] followed by what the send methods address; any other jid is
    addressed unchanged. *)
Theorem jid_round_trip :
  (∀ numericId, ownsJid ("tg:" ++ numericId) = true
                ∧ strip_tg ("tg:" ++ numericId) = numericId)
  ∧ (∀ chat_id, strip_tg (chat_jid_of chat_id) = pretty chat_id)
  ∧ (∀ jid, ownsJid jid = true → "tg:" ++ strip_tg jid = jid)
  ∧ (∀ jid, ownsJid jid = false → strip_tg jid = jid).
Proof.
  split_and!.
  - intros n. split; [done | apply strip_tg_prefixed].
  - intros chat_id. apply strip_tg_prefixed.
  - intros jid Hown. unfold ownsJid in Hown.
    destruct jid as [|a [|b [|c n]]]; cbn [startsWith] in Hown;
      rewrite ?andb_false_r in Hown; try done.
    apply andb_prop in Hown as [Ha Hown]. apply andb_prop in Hown as [Hb Hown].
    apply andb_prop in Hown as [Hc _].
    apply Ascii.eqb_eq in Ha, Hb, Hc. subst a b c.
    exact (f_equal (String.append "tg:") (strip_tg_prefixed n)).
  - intros jid Hown. unfold strip_tg. unfold ownsJid in Hown. by rewrite Hown.
Qed.

(** X7.  When the host configured an event callback, the callback
    handler calls it with the proposal id of a payload [event:<tag>:<id>]
    only up to the first colon of the id, so an id with a colon in it
    reaches the callback cut short; and for a payload [event:<tag>] with
    no id part the callback is still called, with an undefined proposal
    id.  When the host configured none, no payload has any effect. *)
Theorem on_callback_query_segments {W : Type}
    (callback : option string → option string → St W unit) tag (w : W) :
  contains colon tag = false →
  (∀ key rest,
      contains colon key = false →
      on_callback_query (Some callback) ("event:" ++ tag ++ ":" ++ key ++ ":" ++ rest) w
      = callback (Some key) (Some tag) w)
  ∧ on_callback_query (Some callback) ("event:" ++ tag) w = callback None (Some tag) w
  ∧ (∀ data, on_callback_query (W := W) None data w = (Returned (), w)).
Proof.
  intros Htag. split_and!.
  - intros key rest Hkey. unfold on_callback_query, callback_query_args.
    change (startsWith "event:" ("event:" ++ tag ++ ":" ++ key ++ ":" ++ rest)) with true.
    change ("event:" ++ tag ++ ":" ++ key ++ ":" ++ rest)
      with ("event" ++ String colon (tag ++ String colon (key ++ String colon rest))).
    rewrite !split_on_app by done. done.
  - unfold on_callback_query, callback_query_args.
    change (startsWith "event:" ("event:" ++ tag)) with true.
    change ("event:" ++ tag) with ("event" ++ String colon tag).
    rewrite split_on_app by done. by rewrite split_on_no_sep.
  - intros data. unfold on_callback_query, callback_query_args.
    by destruct (startsWith "event:" data).
Qed.

(** X20.  After [disconnect] the channel reports that it is not
    connected and the send methods fall silent: [sendMessage] and
    [sendEventProposal] return at once, the latter without a handle, and
    make no call.  Disconnecting keeps the calls made so far and is
    idempotent. *)
Theorem disconnect_silences_channel `{rt : Runtime} ch jid text proposal :
  let ch' := (disconnect ch).2 in
  isConnected ch' = false
  ∧ outbox ch' = outbox ch
  ∧ sendMessage jid text ch' = (Returned (), ch')
  ∧ sendEventProposal jid proposal ch' = (Returned None, ch')
  ∧ (disconnect ch').2 = ch'.
Proof.
  unfold disconnect, isConnected, sendMessage, sendEventProposal.
  destruct (connected ch) eqn:Hc; simpl; rewrite ?Hc; by split_and!.
Qed.

End OutboundMessages.

(** ** Inbound messages of the channel *)

Section InboundMessages.
Import JS Effects Telegram UTF16 TelegramChannel.
Context {rt : Runtime} {host : Host}.

Lemma startsWith_append p s : startsWith p (p ++ s) = true.
Proof.
  induction p as [|c p IH]; [done|].
  change (Ascii.eqb c c && startsWith p (p ++ s) = true).
  by rewrite Ascii.eqb_refl, IH.
Qed.

(** X8.  What the text handler hands to the host when it returns.  A
    text that starts with [/] (a command) leads to no call at all.  Any
    other text records the chat's metadata once, registered or not, and
    delivers one message exactly when the chat is registered; its content
    is the translated text, and it is filed under the jid of the chat it
    came from, so that sending to that jid addresses the same chat. *)
Theorem on_message_text_routing registeredGroups ctx calls :
  on_message_text registeredGroups ctx = Returned calls →
  let command := is_command (message_text (message ctx)) in
  let chatJid := chat_jid_of (chat_ident (chat ctx)) in
  (command = true ↔ ∃ rest, message_text (message ctx) = slash :: rest)
  ∧ (command = true → calls = [])
  ∧ (command = false →
     ∃ timestamp name,
       timestamp_of (date (message ctx)) = Returned timestamp
       ∧ calls = OnChatMetadata chatJid timestamp (Some name)
                 :: if bool_decide (chatJid ∈ registeredGroups)
                    then [OnMessage chatJid
                            (mkNewMessage (pretty (message_ident (message ctx))) chatJid
                                          (sender_of (from ctx)) (sender_name_of (from ctx))
                                          (utf8 (translated_content ctx)) timestamp false)]
                    else [])
  ∧ (∀ jid msg, OnMessage jid msg ∈ calls →
                command = false ∧ chatJid ∈ registeredGroups
                ∧ jid = chatJid ∧ msg_chat_jid msg = chatJid
                ∧ strip_tg jid = pretty (chat_ident (chat ctx))).
Proof.
  intros Hrun. cbv zeta. unfold on_message_text in Hrun.
  assert (is_command (message_text (message ctx)) = true
          ↔ ∃ rest, message_text (message ctx) = slash :: rest) as Hcommand.
  { unfold is_command. destruct (message_text (message ctx)) as [|u rest].
    - split; [done | by intros [? ?]].
    - rewrite N.eqb_eq. split; [intros ->; by eexists | by intros [? [= -> ?]]]. }
  split; [done|]. clear Hcommand.
  destruct (is_command (message_text (message ctx))) eqn:Hcmd.
  { injection Hrun as <-. split_and!; [done | done |].
    by intros jid msg ?%elem_of_nil. }
  destruct (timestamp_of (date (message ctx))) as [timestamp|e] eqn:Hts; [|done].
  unfold mbind, Outcome_bind, mret, Outcome_ret in Hrun.
  pose proof (strip_tg_prefixed (pretty (chat_ident (chat ctx)))) as Hstrip.
  split_and!; [done| |].
  - intros _. eexists _, _. split; [done|].
    case_bool_decide; by injection Hrun as <-.
  - intros jid msg Hin.
    case_bool_decide as Hreg; injection Hrun as <-.
    + apply elem_of_cons in Hin as [?|Hin]; [done|].
      apply elem_of_cons in Hin as [Heq|Hin]; [|by apply elem_of_nil in Hin].
      injection Heq as -> ->. by split_and!.
    + apply elem_of_cons in Hin as [?|Hin]; [done | by apply elem_of_nil in Hin].
Qed.

(** X9.  The content delivered for a text message is the text with
    [@<ASSISTANT_NAME> ] put in front exactly when the bot has a user
    name, one of the message's [mention] entities spells [@] and that
    name, case ignored, and the text does not match the trigger pattern
    already; in every other case it is the text itself.  The text of an
    entity is the [entity_length] code units of the message text from
    code unit [entity_offset] on. *)
Theorem translated_content_cases ctx :
  let text := message_text (message ctx) in
  let entity_text entity :=
    substring (entity_offset entity) (entity_offset entity + entity_length entity) text in
  let mentioned :=
    ∃ bot entity,
      me_username ctx = Some bot
      ∧ toLowerCase bot ≠ []
      ∧ entity ∈ default [] (entities (message ctx))
      ∧ entity_type entity = "mention"
      ∧ toLowerCase (entity_text entity) = at_sign :: toLowerCase bot in
  (mentioned ∧ TRIGGER_PATTERN_test text = false →
   translated_content ctx = (at_sign :: ASSISTANT_NAME ++ space :: text)%list)
  ∧ (¬ (mentioned ∧ TRIGGER_PATTERN_test text = false) → translated_content ctx = text)
  ∧ (∀ entity,
        entity_text entity = take (entity_length entity) (drop (entity_offset entity) text)).
Proof.
  cbv zeta. unfold translated_content, isBotMentioned.
  set (text := message_text (message ctx)).
  assert (∀ bot entity,
            mentions (toLowerCase bot) text entity = true
            ↔ entity_type entity = "mention"
              ∧ toLowerCase (substring (entity_offset entity)
                                       (entity_offset entity + entity_length entity) text)
                = at_sign :: toLowerCase bot) as Hmentions.
  { intros bot entity. unfold mentions.
    destruct (String.eqb_spec (entity_type entity) "mention") as [Hty|Hty].
    - rewrite bool_decide_eq_true. split; [by intros ? | by intros [_ ?]].
    - split; [done | by intros [? _]]. }
  split_and!.
  - intros [(bot & entity & -> & Hbot & Hin & Hty & Hspell) Htest]. simpl.
    rewrite bool_decide_false by done.
    assert (existsb (mentions (toLowerCase bot) text)
                    (default [] (entities (message ctx))) = true) as ->.
    { apply existsb_exists. exists entity. split; [by apply list_elem_of_In|].
      by apply Hmentions. }
    by rewrite Htest.
  - intros Hnot.
    destruct (me_username ctx) as [bot|] eqn:Hme; simpl; [|done].
    case_bool_decide as Hbot; [done|].
    destruct (existsb _ _) eqn:Hsome; simpl; [|done].
    destruct (TRIGGER_PATTERN_test text) eqn:Htest; simpl; [done|].
    destruct Hnot. split; [|done].
    apply existsb_exists in Hsome as (entity & Hin & Hent).
    apply Hmentions in Hent as [Hty Hspell].
    exists bot, entity. split_and!; [done | done | by apply list_elem_of_In | done | done].
  - intros entity. unfold substring.
    rewrite Nat.min_l, Nat.max_r by lia. apply slice_step.
Qed.

(** X10.  [storeNonText] does nothing at all for a chat that is not
    registered: no metadata, no message, and no failure on a bad date.
    For a registered chat it records the metadata without a chat name and
    delivers one message whose content is the placeholder, followed by a
    space and the caption when there is a non-empty caption. *)
Theorem storeNonText_routing registeredGroups ctx placeholder :
  let chatJid := chat_jid_of (chat_ident (chat ctx)) in
  (chatJid ∉ registeredGroups →
   storeNonText registeredGroups ctx placeholder = Returned [])
  ∧ (chatJid ∈ registeredGroups →
     ∀ calls,
       storeNonText registeredGroups ctx placeholder = Returned calls →
       ∃ timestamp msg,
         calls = [OnChatMetadata chatJid timestamp None; OnMessage chatJid msg]
         ∧ msg_chat_jid msg = chatJid
         ∧ msg_timestamp msg = timestamp
         ∧ startsWith placeholder (msg_content msg) = true
         ∧ msg_content msg
           = match caption (message ctx) with
             | None | Some "" => placeholder
             | Some text => placeholder ++ " " ++ text
             end).
Proof.
  unfold storeNonText. simpl. split.
  - intros Hreg. by rewrite bool_decide_false.
  - intros Hreg calls. rewrite bool_decide_true by done. simpl.
    destruct (timestamp_of (date (message ctx))) as [timestamp|e]; [|done].
    unfold mbind, Outcome_bind, mret, Outcome_ret. intros [= <-].
    eexists _, _. split; [done|]. simpl. split_and!; [done | done | |].
    + apply startsWith_append.
    + destruct (caption (message ctx)) as [[|c text]|]; simpl;
        by rewrite ?append_empty_r.
Qed.

End InboundMessages.

(** ** More on the credential manager and the calendar write client *)

Section CalendarEffects.
Import JS Effects CalendarApproval Counting.
Context {rt : Runtime} {cfg : Config}.

(** The three ways a call of [getAccessToken] can go: it throws before
    any effect, it hands out the stored token after one clock reading, or
    it runs lines 91-98 on the readable record of the file. *)
Lemma getAccessToken_cases w :
  (∃ e, getAccessToken w = (Thrown e, w))
  ∨ (∃ token, getAccessToken w = (Returned token, tick w))
  ∨ (∃ text creds w0,
        oauth_file w = Some text ∧ JSON_parse text = Some creds ∧ readable creds
        ∧ (w0 = w ∨ w0 = tick w)
        ∧ getAccessToken w = refresh_and_store creds w0).
Proof.
  destruct (oauth_file w) as [text|] eqn:Hf.
  2:{ left. eexists. by apply getAccessToken_absent. }
  destruct (JSON_parse text) as [creds|] eqn:Hp.
  2:{ left. apply (getAccessToken_unreadable w text Hf). by rewrite Hp. }
  assert (readable creds ∨ ¬ readable creds) as [Hr|Hbad]
    by (destruct creds; first [by left | by right; intros [??]]).
  2:{ left. apply (getAccessToken_unreadable w text Hf). intros c Hc. by simplify_eq. }
  pose proof (getAccessToken_readable w text creds Hf Hp Hr) as Hrun.
  simpl in Hrun. rewrite Hrun.
  repeat case_match; eauto 12.
Qed.

Lemma refresh_and_store_run creds w :
  readable creds →
  refresh_and_store creds w
  = match network w (sent w) with
    | Rejected reason =>
        (Thrown (NetworkError reason), sending (refresh_request creds) w)
    | Resolved res =>
        if bool_decide (status_code res ≠ 200) then
          (Thrown (Error ("Token refresh failed: "
                          ++ ToString (refresh_error_detail (body res)))),
           sending (refresh_request creds) w)
        else
          match granted (body res) (clock w (ticks w)) with
          | Returned (access_token, expiry) =>
              (Returned access_token,
               writing (JSON_stringify (spread creds (fresh_record access_token expiry)))
                       (tick (sending (refresh_request creds) w)))
          | Thrown RangeError =>
              (Thrown RangeError, tick (sending (refresh_request creds) w))
          | Thrown e => (Thrown e, sending (refresh_request creds) w)
          end
    end.
Proof.
  intros Hr. unfold refresh_and_store. unfold_monad.
  rewrite refreshToken_run by done.
  destruct (network w (sent w)) as [res|]; [|done].
  case_bool_decide; [done|].
  by destruct (granted _ _) as [[tok expiry]|[]].
Qed.

Lemma getAccessToken_trace w :
  ∃ new,
    trace (getAccessToken w).2 = (trace w ++ new)%list
    ∧ sent (getAccessToken w).2 = (sent w + length (requests new))%nat
    ∧ token_effects w (getAccessToken w).1 (getAccessToken w).2 new.
Proof.
  destruct (getAccessToken_cases w)
    as [[e ->]|[[token ->]|(text & creds & w0 & Hf & Hp & Hr & Hw0 & ->)]].
  - exists []. split_and!; [by rewrite app_nil_r | simpl; lia | by left].
  - exists []. split_and!; [by rewrite app_nil_r | simpl; lia | by left].
  - assert (trace w0 = trace w ∧ oauth_file w0 = oauth_file w ∧ sent w0 = sent w
            ∧ network w0 (sent w0) = network w (sent w)) as (Ht & Hfile & Hs & Hn)
      by (by destruct Hw0 as [-> | ->]).
    rewrite refresh_and_store_run by done. rewrite Hn.
    assert (∀ (w1 : World) e,
              trace w1 = trace w0 → oauth_file w1 = oauth_file w0 → sent w1 = sent w0 →
              ∃ new,
                trace (sending (refresh_request creds) w1) = (trace w ++ new)%list
                ∧ sent (sending (refresh_request creds) w1)
                  = (sent w + length (requests new))%nat
                ∧ token_effects w (Thrown e) (sending (refresh_request creds) w1) new)
      as Hfail.
    { intros w1 e Htr Hfl Hsn. exists [Https (refresh_request creds)]. simpl.
      split_and!; [by rewrite Htr, Ht | lia |]. right. exists (refresh_request creds).
      split_and!; [done..|]. left. split_and!; [done | simpl; congruence | eauto]. }
    destruct (network w (sent w)) as [res|reason] eqn:Hnet.
    2:{ by apply (Hfail w0). }
    case_bool_decide as Hst.
    { by apply (Hfail w0). }
    destruct (granted _ _) as [[token expiry]|e] eqn:Hg.
    2:{ destruct e; first [by apply (Hfail w0) | by apply (Hfail (tick w0))]. }
    eexists [Https (refresh_request creds); FsWrite _]. simpl.
    split_and!; [by rewrite <-app_assoc, Ht | lia |]. right.
    exists (refresh_request creds).
    split_and!; [done..|]. right. eexists _, res, token. by split_and!.
Qed.

(** X11.  One call of [getAccessToken] sends at most one request, a POST
    to [oauth2.googleapis.com/token], and writes the credential file at
    most once.  The file is only written after the token endpoint
    answered 200, and then the call returns; whenever the call throws,
    the file is as it was. *)
Theorem getAccessToken_effects w :
  ∃ new,
    trace (getAccessToken w).2 = (trace w ++ new)%list
    ∧ sent (getAccessToken w).2 = (sent w + length (requests new))%nat
    ∧ token_effects w (getAccessToken w).1 (getAccessToken w).2 new.
Proof. apply getAccessToken_trace. Qed.

Lemma token_effects_count w o w' new :
  token_effects w o w' new →
  requests_to "www.googleapis.com" new = []
  ∧ (length (requests_to "oauth2.googleapis.com" new) = length (requests new))
  ∧ (length (requests new) ≤ 1)%nat
  ∧ (length (writes new) ≤ 1)%nat.
Proof.
  unfold requests_to.
  intros [[-> _]|(req & Hh & _ & _ & [(-> & _)|(content & res & token & -> & _)])];
    simpl; rewrite ?Hh; simpl; split_and!; done || lia.
Qed.

Lemma requests_app l1 l2 : requests (l1 ++ l2) = (requests l1 ++ requests l2)%list.
Proof. apply omap_app. Qed.

Lemma writes_app l1 l2 : writes (l1 ++ l2) = (writes l1 ++ writes l2)%list.
Proof. apply omap_app. Qed.

Lemma requests_to_app host l1 l2 :
  requests_to host (l1 ++ l2) = (requests_to host l1 ++ requests_to host l2)%list.
Proof. unfold requests_to. by rewrite requests_app, List.filter_app. Qed.

(** X12.  Whatever the file, the clock and the network do, one call of
    [createCalendarEvent] sends at most two requests to the calendar API
    and at most two to the token endpoint, sends requests to no other
    host, and writes the credential file at most twice. *)
Theorem createCalendarEvent_effects_bounded proposal w :
  ∃ new,
    trace (createCalendarEvent proposal w).2 = (trace w ++ new)%list
    ∧ (length (requests_to "www.googleapis.com" new) ≤ 2)%nat
    ∧ (length (requests_to "oauth2.googleapis.com" new) ≤ 2)%nat
    ∧ length (requests new)
      = (length (requests_to "www.googleapis.com" new)
         + length (requests_to "oauth2.googleapis.com" new))%nat
    ∧ (length (writes new) ≤ 2)%nat.
Proof.
  unfold createCalendarEvent, httpsRequest. unfold_monad.
  destruct (getAccessToken_trace w) as (new1 & Ht1 & _ & Hc1%token_effects_count).
  destruct Hc1 as (Hw1 & Ho1 & Hr1 & Hf1).
  destruct (getAccessToken w) as [[token|e] w1]; simpl in Ht1.
  2:{ exists new1. simpl. rewrite Hw1. simpl. split_and!; [done | lia..]. }
  set (req1 := create_request token _).
  assert (∀ w2 : World,
            trace w2 = (trace w1 ++ [Https req1])%list →
            ∃ new, trace w2 = (trace w ++ new)%list
              ∧ (length (requests_to "www.googleapis.com" new) ≤ 2)%nat
              ∧ (length (requests_to "oauth2.googleapis.com" new) ≤ 2)%nat
              ∧ length (requests new)
                = (length (requests_to "www.googleapis.com" new)
                   + length (requests_to "oauth2.googleapis.com" new))%nat
              ∧ (length (writes new) ≤ 2)%nat) as Hone.
  { intros w2 Ht2. exists (new1 ++ [Https req1])%list.
    rewrite !requests_to_app, requests_app, writes_app, !length_app, Hw1.
    split_and!; [by rewrite Ht2, Ht1, app_assoc | simpl; lia..]. }
  destruct (network w1 (sent w1)) as [res|reason]; [|by apply Hone].
  case_bool_decide; [|case_bool_decide; by apply Hone].
  destruct (getAccessToken_trace (sending req1 w1))
    as (new2 & Ht2 & _ & Hc2%token_effects_count).
  destruct Hc2 as (Hw2 & Ho2 & Hr2 & Hf2).
  destruct (getAccessToken (sending req1 w1)) as [[token2|e] w2]; simpl in Ht2.
  2:{ exists (new1 ++ [Https req1] ++ new2)%list. cbn [snd].
      rewrite !requests_to_app, !requests_app, !writes_app, !length_app, Hw1, Hw2.
      split_and!; [by rewrite Ht2, Ht1, <-!app_assoc | simpl; lia..]. }
  set (req2 := create_request token2 _).
  assert (∀ w3 : World,
            trace w3 = (trace w2 ++ [Https req2])%list →
            ∃ new, trace w3 = (trace w ++ new)%list
              ∧ (length (requests_to "www.googleapis.com" new) ≤ 2)%nat
              ∧ (length (requests_to "oauth2.googleapis.com" new) ≤ 2)%nat
              ∧ length (requests new)
                = (length (requests_to "www.googleapis.com" new)
                   + length (requests_to "oauth2.googleapis.com" new))%nat
              ∧ (length (writes new) ≤ 2)%nat) as Htwo.
  { intros w3 Ht3. exists (new1 ++ [Https req1] ++ new2 ++ [Https req2])%list.
    rewrite !requests_to_app, !requests_app, !writes_app, !length_app, Hw1, Hw2.
    split_and!; [by rewrite Ht3, Ht2, Ht1, <-!app_assoc | simpl; lia..]. }
  destruct (network w2 (sent w2)) as [res2|reason2]; [|by apply Htwo].
  case_bool_decide; by apply Htwo.
Qed.


(** X13.  When the create call is answered 200, [createCalendarEvent]
    sends nothing more and returns the [id] and [htmlLink] of the response
    body (undefined for a property the body lacks).  A 200 answer whose
    body is not JSON makes the call throw a [SyntaxError], and a [null]
    body a [TypeError], although the request has been sent. *)
Theorem createCalendarEvent_created proposal w token w1 res :
  getAccessToken w = (Returned token, w1) →
  network w1 (sent w1) = Resolved res →
  status_code res = 200 →
  let request := create_request token (JSON_stringify (event_payload proposal)) in
  (createCalendarEvent proposal w).2 = sending request w1
  ∧ (createCalendarEvent proposal w).1
    = match JSON_parse (body res) with
      | None => Thrown SyntaxError
      | Some JNull | Some JUndefined => Thrown TypeError
      | Some (JObj props) =>
          Returned (default JUndefined (obj_lookup "id" props),
                    default JUndefined (obj_lookup "htmlLink" props))
      | Some _ => Returned (JUndefined, JUndefined)
      end.
Proof.
  intros Htok Hnet H200. simpl.
  unfold createCalendarEvent, httpsRequest, created_event, parse. unfold_monad.
  rewrite Htok, Hnet, H200. simpl.
  destruct (JSON_parse (body res)) as [[]|]; done.
Qed.

(** X14.  After a first answer of 401, the outcome of
    [createCalendarEvent] is decided by the answer to the repeated call
    alone: on 200 the event of that answer is returned.  The repeated
    request has the same body as the first one and carries the token of
    the second [getAccessToken]. *)
Theorem createCalendarEvent_retry_created proposal w token w1 res token2 w2 res2 :
  let post_body := JSON_stringify (event_payload proposal) in
  getAccessToken w = (Returned token, w1) →
  network w1 (sent w1) = Resolved res →
  status_code res = 401 →
  getAccessToken (sending (create_request token post_body) w1) = (Returned token2, w2) →
  network w2 (sent w2) = Resolved res2 →
  status_code res2 = 200 →
  createCalendarEvent proposal w
  = (created_event res2, sending (create_request token2 post_body) w2)
  ∧ postBody (create_request token2 post_body) = postBody (create_request token post_body).
Proof.
  intros post_body Htok Hnet H401 Htok2 Hnet2 H200. split; [|done].
  unfold createCalendarEvent, httpsRequest. unfold_monad.
  rewrite Htok, Hnet. rewrite bool_decide_true by done.
  fold post_body. rewrite Htok2, Hnet2. by rewrite bool_decide_false by lia.
Qed.

(** X15.  Failures around the create call are passed on as they are and
    never retried: when [getAccessToken] throws, [createCalendarEvent]
    throws the same error without sending the create request, and when
    the create request itself fails on the network, the network error is
    thrown after that single request. *)
Theorem createCalendarEvent_propagates_failures proposal w :
  (∀ e w1, getAccessToken w = (Thrown e, w1) →
           createCalendarEvent proposal w = (Thrown e, w1))
  ∧ (∀ token w1 reason,
        getAccessToken w = (Returned token, w1) →
        network w1 (sent w1) = Rejected reason →
        createCalendarEvent proposal w
        = (Thrown (NetworkError reason),
           sending (create_request token (JSON_stringify (event_payload proposal))) w1)).
Proof.
  split.
  - intros e w1 Htok. unfold createCalendarEvent. unfold_monad. by rewrite Htok.
  - intros token w1 reason Htok Hnet.
    unfold createCalendarEvent, httpsRequest. unfold_monad. by rewrite Htok, Hnet.
Qed.

(** X16.  A credential file that is there but does not hold a record
    makes [getAccessToken] throw before it does anything else: a
    [SyntaxError] when the content is not JSON, a [TypeError] when it is
    the JSON [null].  No request is sent and the file is not touched. *)
Theorem getAccessToken_corrupt_file w text :
  oauth_file w = Some text →
  (JSON_parse text = None → getAccessToken w = (Thrown SyntaxError, w))
  ∧ (JSON_parse text = Some JNull → getAccessToken w = (Thrown TypeError, w)).
Proof.
  intros Hf.
  unfold getAccessToken, fs_existsSync, fs_readFileSync, parse. unfold_monad.
  rewrite Hf. simpl. rewrite Hf. split; by intros ->.
Qed.

(** X17.  When the token endpoint answers a refresh with 200 but its body
    has no [expires_in], the new expiry is not a date: [getAccessToken]
    throws a [RangeError], and the file still holds the old record. *)
Theorem refresh_without_expires_in w res props :
  sent (getAccessToken w).2 ≠ sent w →
  network w (sent w) = Resolved res →
  status_code res = 200 →
  JSON_parse (body res) = Some (JObj props) →
  obj_lookup "expires_in" props = None →
  (getAccessToken w).1 = Thrown RangeError
  ∧ oauth_file (getAccessToken w).2 = oauth_file w
  ∧ writes (trace (getAccessToken w).2) = writes (trace w).
Proof.
  intros Hsent Hnet H200 Hp Hexp.
  destruct (getAccessToken_sent w Hsent) as (text & creds & w0 & Hf & Hp' & Hr & Hw0 & ->).
  assert (trace w0 = trace w ∧ oauth_file w0 = oauth_file w
          ∧ network w0 (sent w0) = network w (sent w)) as (Ht & Hfile & Hn)
    by (by destruct Hw0 as [-> | ->]).
  rewrite refresh_and_store_run by done. rewrite Hn, Hnet, H200.
  rewrite bool_decide_false by (intros ?; done).
  unfold granted, parse. unfold_monad. rewrite Hp. simpl. rewrite Hexp. simpl.
  split_and!; [done | done |]. rewrite Ht, writes_app. simpl. by rewrite app_nil_r.
Qed.

(** X18.  A refresh is followed by reuse.  After a call of
    [getAccessToken] that refreshed the stored record and returned a
    non-empty token, a second call reads the record just written and, as
    long as the clock is more than five minutes short of the new expiry,
    returns the same token without any request.  This needs the runtime
    to read back what it wrote: the JSON text of the record, and the ISO
    string of the expiry. *)
Theorem refresh_then_reuse w text fields token w1 res expiry :
  oauth_file w = Some text →
  JSON_parse text = Some (JObj fields) →
  getAccessToken w = (Returned (JStr token), w1) →
  sent w1 ≠ sent w →
  token ≠ "" →
  network w (sent w) = Resolved res →
  granted (body res) (clock w (Nat.pred (ticks w1))) = Returned (JStr token, expiry) →
  let updated := spread (JObj fields) (fresh_record (JStr token) expiry) in
  JSON_parse (JSON_stringify updated) = Some updated →
  Date_toISOString expiry ≠ "" →
  Date_parse (Date_toISOString expiry) = Some expiry →
  EXPIRY_BUFFER_MS < expiry - clock w1 (ticks w1) →
  getAccessToken w1 = (Returned (JStr token), tick w1).
Proof.
  intros Hf Hp Hrun Hsent Hne Hnet Hg updated Hjson Hiso Hdate Hlt.
  assert (sent (getAccessToken w).2 ≠ sent w) as Hsent' by by rewrite Hrun.
  destruct (getAccessToken_sent w Hsent') as (text' & creds & w0 & Hf' & Hp' & Hr & Hw0 & Hrs).
  assert (creds = JObj fields) as -> by congruence.
  assert (clock w0 = clock w ∧ network w0 (sent w0) = network w (sent w)) as [Hclock Hn]
    by (by destruct Hw0 as [-> | ->]).
  rewrite Hrun, refresh_and_store_run in Hrs by done.
  rewrite Hn, Hnet in Hrs.
  case_bool_decide; [done|].
  destruct (granted (body res) (clock w0 (ticks w0))) as [[token' expiry']|e] eqn:Hg';
    [|by destruct e].
  injection Hrs as Htoken Hw1. subst token' w1. simpl in Hg.
  rewrite <-Hclock, Hg' in Hg.
  assert (expiry' = expiry) as -> by congruence. fold updated in Hlt |- *.
  assert (∃ props, updated = JObj props
                   ∧ obj_lookup "access_token" props = Some (JStr token)
                   ∧ obj_lookup "token_expiry" props = Some (JStr (Date_toISOString expiry)))
    as (props & Hupd & Hat & Hte).
  { subst updated. rewrite spread_fresh_record. eexists. split; [done|]. split.
    - rewrite obj_lookup_set_ne by done. apply obj_lookup_set_eq.
    - apply obj_lookup_set_eq. }
  rewrite Hupd in Hjson.
  rewrite (getAccessToken_readable _ (JSON_stringify updated) (JObj props));
    [|done | by rewrite Hupd | done].
  simpl. rewrite Hat, Hte. simpl.
  assert (String.eqb token "" = false) as -> by by apply String.eqb_neq.
  assert (String.eqb (Date_toISOString expiry) "" = false) as -> by by apply String.eqb_neq.
  simpl. rewrite Hdate. rewrite bool_decide_true; [done|]. simpl in Hlt. lia.
Qed.

(** X19.  The detail put in an error message is the raw body or a
    truthy value read from the parsed body: for a body that is not empty,
    [parseApiError] and the detail of a failed refresh never give
    [undefined], [null], [false], [0] or the empty string.  The text
    printed for the detail can be empty all the same: a message or a
    description that is an empty array is truthy, and prints as
    nothing. *)
Theorem error_details_fall_back_to_body res_body :
  (parseApiError res_body = JStr res_body ∨ truthy (parseApiError res_body) = true)
  ∧ (refresh_error_detail res_body = JStr res_body
     ∨ truthy (refresh_error_detail res_body) = true)
  ∧ (res_body ≠ "" →
     truthy (parseApiError res_body) = true
     ∧ truthy (refresh_error_detail res_body) = true
     ∧ ∀ detail,
         detail = parseApiError res_body ∨ detail = refresh_error_detail res_body →
         detail ∉ [JUndefined; JNull; JBool false; JNum 0; JStr ""])
  ∧ (∀ props,
        JSON_parse res_body = Some (JObj props) →
        (obj_lookup "error" props = Some (JObj [("message", JArr [])]) →
         parseApiError res_body = JArr []
         ∧ ToString (parseApiError res_body) = "")
        ∧ (obj_lookup "error_description" props = Some (JArr []) →
           refresh_error_detail res_body = JArr []
           ∧ ToString (refresh_error_detail res_body) = "")).
Proof.
  assert (parseApiError res_body = JStr res_body ∨ truthy (parseApiError res_body) = true)
    as Hapi.
  { rewrite parseApiError_cases. unfold js_or.
    destruct (JSON_parse res_body) as [[]|]; auto.
    repeat case_match; auto. }
  assert (refresh_error_detail res_body = JStr res_body
          ∨ truthy (refresh_error_detail res_body) = true) as Hrefresh.
  { unfold refresh_error_detail, parse, js_or. unfold_monad.
    destruct (JSON_parse res_body) as [[]|]; simpl; auto.
    repeat case_match; simplify_eq/=; auto. }
  split_and!; [done | done | |].
  - intros Hne.
    assert (truthy (JStr res_body) = true) as Hbody
      by (simpl; by apply negb_true_iff, String.eqb_neq).
    assert (truthy (parseApiError res_body) = true) as Htapi
      by (by destruct Hapi as [->|]).
    assert (truthy (refresh_error_detail res_body) = true) as Htrefresh
      by (by destruct Hrefresh as [->|]).
    split_and!; [done | done |].
    intros detail Hdetail Hin.
    assert (truthy detail = true) as Htruthy by (by destruct Hdetail as [-> | ->]).
    repeat (apply elem_of_cons in Hin as [->|Hin]; [done|]).
    by apply elem_of_nil in Hin.
  - intros props Hp. split.
    + intros Herr. rewrite parseApiError_cases, Hp, Herr. done.
    + intros Hdesc. unfold refresh_error_detail, parse. unfold_monad.
      rewrite Hp. simpl. rewrite Hdesc. done.
Qed.

(** X21.  The repeated call of the 401 branch is the last one: when it
    is answered with anything but 200, a second 401 included,
    [createCalendarEvent] throws the API error of that answer, and the
    last thing sent is the repeated request. *)
Theorem retry_failure_is_terminal proposal w token w1 res token2 w2 res2 :
  let post_body := JSON_stringify (event_payload proposal) in
  getAccessToken w = (Returned token, w1) →
  network w1 (sent w1) = Resolved res →
  status_code res = 401 →
  getAccessToken (sending (create_request token post_body) w1) = (Returned token2, w2) →
  network w2 (sent w2) = Resolved res2 →
  status_code res2 ≠ 200 →
  createCalendarEvent proposal w
  = (Thrown (Error ("Calendar API error " ++ pretty (status_code res2) ++ ": "
                    ++ ToString (parseApiError (body res2)))),
     sending (create_request token2 post_body) w2).
Proof.
  intros post_body Htok Hnet H401 Htok2 Hnet2 H200.
  by apply (createCalendarEvent_retry_failure proposal w token w1 res token2 w2 res2).
Qed.

(** X22.  The 401 branch obtains its token with the ordinary
    [getAccessToken]: when the stored token passes the local validity
    check at both clock readings, the repeated request carries the very
    token that was just rejected, and the whole call consists of those
    two create requests: the token endpoint is not contacted and the
    file is not written. *)
Theorem retry_resends_locally_valid_token
    proposal w text fields token token_expiry expiry res :
  oauth_file w = Some text →
  JSON_parse text = Some (JObj fields) →
  obj_lookup "access_token" fields = Some (JStr token) → token ≠ "" →
  obj_lookup "token_expiry" fields = Some (JStr token_expiry) → token_expiry ≠ "" →
  Date_parse token_expiry = Some expiry →
  EXPIRY_BUFFER_MS < expiry - clock w (ticks w) →
  EXPIRY_BUFFER_MS < expiry - clock w (S (ticks w)) →
  network w (sent w) = Resolved res →
  status_code res = 401 →
  let request := create_request (JStr token) (JSON_stringify (event_payload proposal)) in
  trace (createCalendarEvent proposal w).2 = (trace w ++ [Https request; Https request])%list
  ∧ hostname request = "www.googleapis.com"
  ∧ headers request !! 0%nat = Some ("Authorization", "Bearer " ++ token).
Proof.
  intros Hf Hp Htok Hne Hexp Hne' Hd Hlt1 Hlt2 Hnet H401 request.
  split; [|done].
  by apply (createCalendarEvent_retry_same_token
              proposal w text fields token token_expiry expiry res).
Qed.

End CalendarEffects.

(** ** More properties on the sample data *)

Section MoreExamples.
Import JS Effects CalendarApproval Telegram UTF16 TelegramChannel.

(** X3 on a text of 5000 code units, which is 10000 bytes of UTF-8: it
    goes out as two messages, of 4096 and of 904 code units. *)
Lemma sendMessage_delivers_in_order_witness :
  let ch := MoreSamples.channel [Delivered 1; Delivered 2] in
  let text := MoreSamples.long_text in
  outbox (sendMessage "tg:42" text ch).2
  = (outbox ch ++ (markdown_message (strip_tg "tg:42") <$> message_chunks text))%list
  ∧ length <$> message_chunks text = [4096; 904]%nat
  ∧ Z.of_nat (String.length (utf8 text)) = 10000.
Proof.
  intros ch text. split; [|by vm_compute].
  apply (sendMessage_delivers_in_order "tg:42" text ch); [reflexivity|].
  intros k Hk. vm_compute in Hk.
  destruct k as [|[|k]]; [by exists 1 | by exists 2 | lia].
Defined.

(** X4 on a text that Telegram rejects in both modes. *)
Lemma sendMessage_plain_text_fallback_witness :
  let ch := MoreSamples.channel [Failed "bad markdown"; Failed "blocked"] in
  let text := utf16 "*hello" in
  let ch' := called (plain_message (strip_tg "tg:42") text)
                    (called (markdown_message (strip_tg "tg:42") text) ch) in
  (sendMessage "tg:42" text ch).1 = Returned ()
  ∧ (sendMessage "tg:42" text ch).2
    = match telegram ch (S (length (outbox ch))) with
      | Delivered _ => (send_chunks (strip_tg "tg:42") [] ch').2
      | Failed _ => ch'
      end.
Proof.
  intros ch text.
  apply (sendMessage_plain_text_fallback "tg:42" text ch text [] "bad markdown");
    reflexivity.
Defined.

(** X6 on the jid of chat 42. *)
Lemma jid_round_trip_witness : "tg:" ++ strip_tg "tg:42" = "tg:42".
Proof. apply (proj1 (proj2 (proj2 jid_round_trip))). reflexivity. Defined.

(** X7 on a proposal id with a colon in it. *)
Lemma on_callback_query_segments_witness :
  on_callback_query (Some Sample.record_call)
                    ("event:" ++ "approve" ++ ":" ++ "prop" ++ ":" ++ "1") []
  = Sample.record_call (Some "prop") (Some "approve") [].
Proof.
  apply (proj1 (on_callback_query_segments Sample.record_call "approve" [] eq_refl)).
  reflexivity.
Defined.


Local Existing Instance Sample.runtime.
Local Existing Instance Sample.config.
Local Existing Instance MoreSamples.host.

(** X8 on a message in a registered group that mentions the bot after
    two letters outside ASCII. *)
Lemma on_message_text_routing_witness :
  let ctx := MoreSamples.greeting in
  let msg := mkNewMessage "15" "tg:-100" "7" "Alice"
                          "@Zorya Cześć @Zorya_Bot" "1000000" false in
  is_command (message_text (message ctx)) = false
  ∧ chat_jid_of (chat_ident (chat ctx)) ∈ ({[ "tg:-100" ]} : gset string)
  ∧ "tg:-100" = chat_jid_of (chat_ident (chat ctx))
  ∧ msg_chat_jid msg = chat_jid_of (chat_ident (chat ctx))
  ∧ strip_tg "tg:-100" = pretty (chat_ident (chat ctx)).
Proof.
  intros ctx msg.
  destruct (on_message_text_routing
              {[ "tg:-100" ]} ctx
              [OnChatMetadata "tg:-100" "1000000" (Some "Family");
               OnMessage "tg:-100" msg]) as (_ & _ & _ & Hmsg); [reflexivity|].
  apply (Hmsg "tg:-100" msg).
  apply list_elem_of_further, list_elem_of_here.
Defined.

(** X9 on the same message: the mention is found at code unit 6, where
    it is, and the trigger is put in front; and on a text that starts
    with the trigger already, which is left as it is. *)
Lemma translated_content_cases_witness :
  translated_content MoreSamples.greeting
  = (at_sign :: ASSISTANT_NAME ++ space :: message_text (message MoreSamples.greeting))%list
  ∧ translated_content MoreSamples.triggered
    = message_text (message MoreSamples.triggered).
Proof.
  split.
  - apply (proj1 (translated_content_cases MoreSamples.greeting)).
    split; [|reflexivity].
    exists (utf16 "Zorya_Bot"), (mkEntity "mention" 6 10).
    split_and!; [reflexivity | discriminate | apply list_elem_of_here | reflexivity..].
  - apply (proj1 (proj2 (translated_content_cases MoreSamples.triggered))).
    intros [_ Htest]. vm_compute in Htest. discriminate.
Defined.

(** X10 on a captioned photo in a registered group. *)
Lemma storeNonText_routing_witness :
  ∃ timestamp msg,
    [OnChatMetadata "tg:-100" "1000000" None;
     OnMessage "tg:-100"
               (mkNewMessage "14" "tg:-100" "7" "Alice" "[Photo] sunset" "1000000" false)]
    = [OnChatMetadata (chat_jid_of (-100)) timestamp None;
       OnMessage (chat_jid_of (-100)) msg]
    ∧ msg_chat_jid msg = chat_jid_of (-100)
    ∧ msg_timestamp msg = timestamp
    ∧ startsWith "[Photo]" (msg_content msg) = true
    ∧ msg_content msg = "[Photo]" ++ " " ++ "sunset".
Proof.
  apply (proj2 (storeNonText_routing {[ "tg:-100" ]} MoreSamples.photo "[Photo]")).
  - vm_compute. reflexivity.
  - reflexivity.
Defined.

(** X13 on a create call answered 200. *)
Lemma createCalendarEvent_created_witness :
  let w := Sample.world (Some "oauth.json")
                        (Sample.answers [mkResponse 200 "event-created"]) in
  let request := create_request (JStr "stored-token")
                                (JSON_stringify (event_payload Sample.coffee)) in
  (createCalendarEvent Sample.coffee w).2 = sending request (tick w)
  ∧ (createCalendarEvent Sample.coffee w).1
    = match JSON_parse "event-created" with
      | None => Thrown SyntaxError
      | Some JNull | Some JUndefined => Thrown TypeError
      | Some (JObj props) =>
          Returned (default JUndefined (obj_lookup "id" props),
                    default JUndefined (obj_lookup "htmlLink" props))
      | Some _ => Returned (JUndefined, JUndefined)
      end.
Proof.
  intros w.
  apply (createCalendarEvent_created Sample.coffee w (JStr "stored-token") (tick w)
                                     (mkResponse 200 "event-created"));
    reflexivity.
Defined.

(** X14 on a 401 followed by a 200. *)
Lemma createCalendarEvent_retry_created_witness :
  let w := Sample.world (Some "oauth.json")
                        (Sample.answers [mkResponse 401 "unauthorized";
                                         mkResponse 200 "event-created"]) in
  let post_body := JSON_stringify (event_payload Sample.coffee) in
  let token := JStr "stored-token" in
  let w1 := tick w in
  let w2 := tick (sending (create_request token post_body) w1) in
  createCalendarEvent Sample.coffee w
  = (created_event (mkResponse 200 "event-created"),
     sending (create_request token post_body) w2)
  ∧ postBody (create_request token post_body) = postBody (create_request token post_body).
Proof.
  intros w post_body token w1 w2.
  apply (createCalendarEvent_retry_created
           Sample.coffee w token w1 (mkResponse 401 "unauthorized") token w2
           (mkResponse 200 "event-created"));
    reflexivity.
Defined.

(** X15 on a create request that fails on the network. *)
Lemma createCalendarEvent_propagates_failures_witness :
  let w := Sample.world (Some "oauth.json") (Sample.answers []) in
  createCalendarEvent Sample.coffee w
  = (Thrown (NetworkError "ECONNRESET"),
     sending (create_request (JStr "stored-token")
                             (JSON_stringify (event_payload Sample.coffee)))
             (tick w)).
Proof.
  intros w.
  apply (proj2 (createCalendarEvent_propagates_failures Sample.coffee w)); reflexivity.
Defined.

(** X16 on a file that is not JSON. *)
Lemma getAccessToken_corrupt_file_witness :
  let w := Sample.world (Some "not json") (Sample.answers []) in
  getAccessToken w = (Thrown SyntaxError, w).
Proof.
  intros w. apply (proj1 (getAccessToken_corrupt_file w "not json" eq_refl)). reflexivity.
Defined.

(** X17 on a 200 answer whose body has no [expires_in]. *)
Lemma refresh_without_expires_in_witness :
  let w := Sample.world (Some "oauth-stale.json")
                        (Sample.answers [mkResponse 200 "token-denied"]) in
  (getAccessToken w).1 = Thrown RangeError
  ∧ oauth_file (getAccessToken w).2 = oauth_file w
  ∧ writes (trace (getAccessToken w).2) = writes (trace w).
Proof.
  intros w.
  apply (refresh_without_expires_in
           w (mkResponse 200 "token-denied")
           [("error", JStr "invalid_grant");
            ("error_description", JStr "Token has been revoked.")]);
    [vm_compute; discriminate | reflexivity..].
Defined.

(** X19 on the body of a quota error. *)
Lemma error_details_fall_back_to_body_witness :
  truthy (parseApiError "quota") = true ∧ truthy (refresh_error_detail "quota") = true.
Proof.
  destruct (proj1 (proj2 (proj2 (error_details_fall_back_to_body "quota"))))
    as (Hapi & Hrefresh & _); [discriminate|].
  by split.
Defined.

(** X20 on a connected sample channel. *)
Lemma disconnect_silences_channel_witness :
  let ch' := (disconnect (MoreSamples.channel [Delivered 1])).2 in
  isConnected ch' = false
  ∧ outbox ch' = outbox (MoreSamples.channel [Delivered 1])
  ∧ sendMessage "tg:42" (utf16 "hello") ch' = (Returned (), ch')
  ∧ sendEventProposal "tg:42" Sample.coffee ch' = (Returned None, ch')
  ∧ (disconnect ch').2 = ch'.
Proof.
  apply (disconnect_silences_channel
           (MoreSamples.channel [Delivered 1]) "tg:42" (utf16 "hello") Sample.coffee).
Defined.

(** X21 on a 401 answered twice. *)
Lemma retry_failure_is_terminal_witness :
  let w := Sample.world (Some "oauth.json")
                        (Sample.answers [mkResponse 401 "unauthorized";
                                         mkResponse 401 "unauthorized"]) in
  let post_body := JSON_stringify (event_payload Sample.coffee) in
  let token := JStr "stored-token" in
  let w2 := tick (sending (create_request token post_body) (tick w)) in
  createCalendarEvent Sample.coffee w
  = (Thrown (Error ("Calendar API error " ++ pretty 401 ++ ": "
                    ++ ToString (parseApiError "unauthorized"))),
     sending (create_request token post_body) w2).
Proof.
  intros w post_body token w2.
  apply (retry_failure_is_terminal
           Sample.coffee w token (tick w) (mkResponse 401 "unauthorized") token w2
           (mkResponse 401 "unauthorized"));
    first [reflexivity | discriminate].
Defined.

(** X22 on the sample record, whose token is valid for the local check. *)
Lemma retry_resends_locally_valid_token_witness :
  let w := Sample.world (Some "oauth.json")
                        (Sample.answers [mkResponse 401 "unauthorized";
                                         mkResponse 200 "event-created"]) in
  let request := create_request (JStr "stored-token")
                                (JSON_stringify (event_payload Sample.coffee)) in
  trace (createCalendarEvent Sample.coffee w).2
  = (trace w ++ [Https request; Https request])%list
  ∧ hostname request = "www.googleapis.com"
  ∧ headers request !! 0%nat = Some ("Authorization", "Bearer " ++ "stored-token").
Proof.
  intros w.
  apply (retry_resends_locally_valid_token
           Sample.coffee w "oauth.json" (Sample.credential_fields "stored-token" "2000000")
           "stored-token" "2000000" 2000000 (mkResponse 401 "unauthorized"));
    first [reflexivity | discriminate].
Defined.

End MoreExamples.

Section ReadingBack.
Import JS Effects CalendarApproval.

Local Existing Instance MoreSamples.reading_runtime.
Local Existing Instance Sample.config.

(** X18 on the stale sample record: the refresh is followed by reuse. *)
Lemma refresh_then_reuse_witness :
  let w := Sample.world (Some "oauth-stale.json")
                        (Sample.answers [mkResponse 200 "token-granted"]) in
  let w1 := (getAccessToken w).2 in
  getAccessToken w1 = (Returned (JStr "new-token"), tick w1).
Proof.
  intros w w1.
  apply (refresh_then_reuse w "oauth-stale.json"
                            (Sample.credential_fields "stored-token" "1000")
                            "new-token" w1 (mkResponse 200 "token-granted") 4600000);
    first [reflexivity | discriminate].
Defined.

End ReadingBack.
